(** * mf-logwrapper: a contextual logging facade over a structured sink

    A shallow embedding of [src/index.js].  JavaScript values live in a
    store of objects addressed by reference, so that object identity, the
    shallow copy made by [Object.assign] and the absence of mutation of
    caller-owned objects are all visible in the statements.  An object
    carries what the module can observe of it: its class, whether it
    accepts assignments, and its own enumerable properties, data or
    accessor.  The sink (the [pino] logger) is an external collaborator:
    it is modelled as a store of sinks, each with its construction
    options and its ordered bound context, together with the journal of
    the calls it received. *)

From Stdlib Require Import ZArith.
From stdpp Require Import gmap strings list fin_maps.

Open Scope string_scope.
Open Scope list_scope.

(** ** JavaScript values *)

Abbreviation loc := positive.

(** Numbers: the integer-valued ones and NaN are enough for the
    truthiness tests the module makes. *)
Inductive number :=
  | NumZ (z : Z)
  | NumNaN.

Inductive value :=
  | VUndefined
  | VNull
  | VBool (b : bool)
  | VNum (n : number)
  | VBigInt (z : Z)
  | VStr (s : string)
  | VSymbol (id : nat)
  | VRef (l : loc).

(** What the module can tell about an object: whether [Error.prototype]
    is on its prototype chain ([instanceof Error]) and whether it is
    callable ([typeof] answers ["function"]). *)
Inductive obj_class :=
  | CPlain
  | CArray
  | CError
  | CFunction
  | COther.

(** What an assignment [o.k = v] does to an object: it is carried out
    ([Mutable], an ordinary extensible object); it changes nothing
    ([Frozen], a non-extensible object whose properties are not writable:
    non-strict code drops the assignment, strict code throws); or it
    throws ([Guarded], an object that rejects every write, as the
    sections handed out by recent versions of the configuration library
    do). *)
Inductive mutability :=
  | Mutable
  | Frozen
  | Guarded.

(** An own enumerable property: a data property, or an accessor with a
    getter and no setter.  A getter is taken to have no effect other than
    its result: the value it returns, or [None] when it throws. *)
Inductive prop :=
  | PData (v : value)
  | PGetter (r : option value).

(** An object: its class, what assignments do to it, and its own
    enumerable string-keyed properties (an array holds its elements under
    the keys "0", "1", ...; its [length] is not enumerable). *)
Record obj := Obj {
  obj_class_of : obj_class;
  obj_mutability : mutability;
  obj_props : gmap string prop;
}.

(** Data properties with the given values. *)
Definition data (vs : gmap string value) : gmap string prop := PData <$> vs.

#[global] Instance number_eq_dec : EqDecision number.
Proof. solve_decision. Defined.
#[global] Instance value_eq_dec : EqDecision value.
Proof. solve_decision. Defined.
#[global] Instance obj_class_eq_dec : EqDecision obj_class.
Proof. solve_decision. Defined.
#[global] Instance mutability_eq_dec : EqDecision mutability.
Proof. solve_decision. Defined.
#[global] Instance prop_eq_dec : EqDecision prop.
Proof. solve_decision. Defined.

(** ** The sink *)

Inductive level := Fatal | Error | Warn | Info | Debug | Trace.

Abbreviation sref := positive.

(** Modelled from the spec: the structured-logging sink is external
    ([require('pino')]).  A sink has the level and enabled flag it was
    constructed with, the ordered fields bound to it, and the sink it was
    derived from. *)
Record sink := Sink {
  sink_level : value;
  sink_enabled : value;
  sink_bindings : list (string * value);
  sink_parent : option sref;
}.

(** One call of a severity method of a sink. *)
Record record := Rec {
  rec_sink : sref;
  rec_level : level;
  rec_args : list value;
}.

Record state := State {
  heap : gmap loc obj;
  sinks : gmap sref sink;
  emitted : list record;
}.

(** The result of a call that may throw: the state it leaves, and the
    exception when one propagates to the caller. *)
Inductive result :=
  | Returned (st : state)
  | Thrown (e : string) (st : state).

Definition after (r : result) : state :=
  match r with
  | Returned st => st
  | Thrown _ st => st
  end.

Definition thrown (r : result) : option string :=
  match r with
  | Returned _ => None
  | Thrown e _ => Some e
  end.

(** Whatever a getter throws; the model does not tell exceptions of
    getters apart. *)
Definition getter_exception : string := "thrown by a getter".

(** ** Primitive operations of the language *)

Definition typeof (h : gmap loc obj) (v : value) : string :=
  match v with
  | VUndefined => "undefined"
  | VNull => "object"
  | VBool _ => "boolean"
  | VNum _ => "number"
  | VBigInt _ => "bigint"
  | VStr _ => "string"
  | VSymbol _ => "symbol"
  | VRef l =>
      match obj_class_of <$> h !! l with
      | Some CFunction => "function"
      | _ => "object"
      end
  end.

(** [v instanceof Error] *)
Definition instanceof_Error (h : gmap loc obj) (v : value) : bool :=
  match v with
  | VRef l =>
      match obj_class_of <$> h !! l with
      | Some CError => true
      | _ => false
      end
  | _ => false
  end.

(** ToBoolean *)
Definition truthy (v : value) : bool :=
  match v with
  | VUndefined | VNull => false
  | VBool b => b
  | VNum (NumZ z) => negb (z =? 0)%Z
  | VNum NumNaN => false
  | VBigInt z => negb (z =? 0)%Z
  | VStr s => negb (String.eqb s "")
  | VSymbol _ => true
  | VRef _ => true
  end.

(** [a || b] *)
Definition js_or (a b : value) : value := if truthy a then a else b.

(** [a === b] *)
Definition strict_eq (a b : value) : bool :=
  match a, b with
  | VNum NumNaN, _ | _, VNum NumNaN => false
  | _, _ => bool_decide (a = b)
  end.

(** Allocation of a fresh object, as an object literal does. *)
Definition alloc (o : obj) (st : state) : loc * state :=
  let l := fresh (dom (heap st)) in
  (l, State (<[l := o]> (heap st)) (sinks st) (emitted st)).

(** The own enumerable properties of a value: those of the object for a
    reference, none for a primitive without indexed content. *)
Definition own_props (h : gmap loc obj) (v : value) : gmap string prop :=
  match v with
  | VRef l => match h !! l with Some o => obj_props o | None => ∅ end
  | _ => ∅
  end.

(** Reading an own property ([[Get]]): the value of a data property, the
    result of the getter of an accessor. *)
Definition read_prop (p : prop) : option value :=
  match p with
  | PData v => Some v
  | PGetter r => r
  end.

(** Every one of the properties can be read: no getter among them
    throws. *)
Definition all_readable (ps : gmap string prop) : bool :=
  bool_decide (map_Forall (λ _ p, is_Some (read_prop p)) ps).

(** The values [Object.assign] reads from its source, one per own
    enumerable property; [None] when one of the getters throws. *)
Definition read_own (h : gmap loc obj) (source : value) : option (gmap string value) :=
  if all_readable (own_props h source)
  then Some (omap read_prop (own_props h source))
  else None.

(** The class of an object created by [{}] once the values [vs] have
    been assigned to it.  The key [__proto__] is not defined on the
    object: it reaches the setter inherited from [Object.prototype],
    which replaces the prototype when the value is an object or [null]
    and does nothing otherwise.  With an error instance as prototype the
    object is itself an error instance. *)
Definition proto_class (h : gmap loc obj) (vs : gmap string value) (c : obj_class) : obj_class :=
  match vs !! "__proto__" with
  | Some (VRef p) => if instanceof_Error h (VRef p) then CError else COther
  | Some VNull => COther
  | _ => c
  end.

(** [Object.assign(target, source)], for a target created by [{}]: the
    value of every own enumerable property of the source is read
    ([[Get]]) and assigned to the target ([[Set]]), where it becomes a
    data property, over a property of the same name; [__proto__] goes to
    the inherited setter.  [None] when a getter of the source throws.
    When the source gives the target another object as prototype, that
    object is taken not to define accessors or read-only properties
    under the names assigned. *)
Definition object_assign (target : loc) (source : value) (st : state) : option state :=
  vs ← read_own (heap st) source;
  Some (State (alter (λ o, Obj (proto_class (heap st) vs (obj_class_of o))
                               (obj_mutability o)
                               (data (delete "__proto__" vs) ∪ obj_props o))
                     target (heap st))
              (sinks st) (emitted st)).

(** [o.k = v] on a mutable object [l] whose property [k], if it has one,
    is a data property: the copy made by [Object.assign]. *)
Definition set_prop (l : loc) (k : string) (v : value) (st : state) : state :=
  State (alter (λ o, Obj (obj_class_of o) (obj_mutability o)
                         (<[k := PData v]> (obj_props o))) l (heap st))
        (sinks st) (emitted st).

(** ** The sink's methods *)

(** [sink.<level>(...args)]: the sink receives one call. *)
Definition sink_log (s : sref) (lv : level) (args : list value) (st : state) : state :=
  State (heap st) (sinks st) (emitted st ++ [Rec s lv args]).

(** Modelled from the spec: [sink.child(fields)] returns a new sink
    inheriting the parent's configuration plus the additional
    always-included fields; the parent is not changed. *)
Definition child (s : sref) (fields : list (string * value)) (st : state) : sref * state :=
  let s' := fresh (dom (sinks st)) in
  let p := default (Sink VUndefined VUndefined [] None) (sinks st !! s) in
  (s', State (heap st)
             (<[s' := Sink (sink_level p) (sink_enabled p)
                           (sink_bindings p ++ fields) (Some s)]> (sinks st))
             (emitted st)).

(** ** class ContextLogger *)

Record ContextLogger := { pinoLogger : sref }.

Definition fatal (this : ContextLogger) (args : list value) (st : state) : state :=
  sink_log (pinoLogger this) Fatal args st.

Definition error (this : ContextLogger) (args : list value) (st : state) : state :=
  sink_log (pinoLogger this) Error args st.

Definition warn (this : ContextLogger) (args : list value) (st : state) : state :=
  sink_log (pinoLogger this) Warn args st.

Definition info (this : ContextLogger) (args : list value) (st : state) : state :=
  sink_log (pinoLogger this) Info args st.

Definition debug (this : ContextLogger) (args : list value) (st : state) : state :=
  sink_log (pinoLogger this) Debug args st.

Definition trace (this : ContextLogger) (args : list value) (st : state) : state :=
  sink_log (pinoLogger this) Trace args st.

(** [debugF(functionName, ...args)].  The rest parameter [args] is an
    array created for the call, so its updates ([unshift], [args[0] =])
    are local; the objects it refers to are shared with the caller.
    When [Object.assign] throws, the exception propagates before the
    sink is called; the unfinished copy is then unreachable and the
    state is the one before the call. *)
Definition debugF (this : ContextLogger) (functionName : value)
    (args : list value) (st : state) : result :=
  match args with
  | [] => Returned st
  | firstArg :: _ =>
      if instanceof_Error (heap st) firstArg then
        Returned (sink_log (pinoLogger this) Debug args st)
      else if String.eqb (typeof (heap st) firstArg) "string" then
        let '(o, st1) := alloc (Obj CPlain Mutable (data {[ "_fun" := functionName ]})) st in
        Returned (sink_log (pinoLogger this) Debug (VRef o :: args) st1)
      else if String.eqb (typeof (heap st) firstArg) "object"
              && negb (bool_decide (firstArg = VNull)) then
        let '(newFirstArg, st1) := alloc (Obj CPlain Mutable ∅) st in
        match object_assign newFirstArg firstArg st1 with
        | Some st2 =>
            let st3 := set_prop newFirstArg "_fun" functionName st2 in
            Returned (sink_log (pinoLogger this) Debug
                        (<[0%nat := VRef newFirstArg]> args) st3)
        | None => Thrown getter_exception st
        end
      else
        Returned (sink_log (pinoLogger this) Debug args st)
  end.

(** [traceF(functionName, ...args)] *)
Definition traceF (this : ContextLogger) (functionName : value)
    (args : list value) (st : state) : result :=
  match args with
  | [] => Returned st
  | firstArg :: _ =>
      if instanceof_Error (heap st) firstArg then
        Returned (sink_log (pinoLogger this) Trace args st)
      else if String.eqb (typeof (heap st) firstArg) "string" then
        let '(o, st1) := alloc (Obj CPlain Mutable (data {[ "_fun" := functionName ]})) st in
        Returned (sink_log (pinoLogger this) Trace (VRef o :: args) st1)
      else if String.eqb (typeof (heap st) firstArg) "object"
              && negb (bool_decide (firstArg = VNull)) then
        let '(newFirstArg, st1) := alloc (Obj CPlain Mutable ∅) st in
        match object_assign newFirstArg firstArg st1 with
        | Some st2 =>
            let st3 := set_prop newFirstArg "_fun" functionName st2 in
            Returned (sink_log (pinoLogger this) Trace
                        (<[0%nat := VRef newFirstArg]> args) st3)
        | None => Thrown getter_exception st
        end
      else
        Returned (sink_log (pinoLogger this) Trace args st)
  end.

(** ** Module initialisation and the factories *)

Inductive outcome (A : Type) :=
  | Ok (a : A)
  | Throw (e : string).
Arguments Ok {A} a.
Arguments Throw {A} e.

#[global] Instance outcome_ret : MRet outcome := λ A a, Ok a.

#[global] Instance outcome_bind : MBind outcome := λ A B k m,
  match m with
  | Ok a => k a
  | Throw e => Throw e
  end.

(** The configuration provider ([require('config')]) as the mapping of
    its top-level keys; a structured section is an object of the store. *)
Definition config_has (config : gmap string value) (k : string) : bool :=
  match config !! k with
  | Some v => negb (strict_eq v VUndefined)
  | None => false
  end.

Definition config_get (config : gmap string value) (k : string) : value :=
  default VUndefined (config !! k).


(** [v.k] for the keys the module reads ([level], [enabled]), which no
    built-in prototype defines: a property of [undefined] or [null]
    cannot be read, and a getter may throw. *)
Definition get_prop (h : gmap loc obj) (v : value) (k : string) : outcome value :=
  match v with
  | VUndefined | VNull => Throw "TypeError"
  | _ =>
      match own_props h v !! k with
      | Some p =>
          match read_prop p with
          | Some x => Ok x
          | None => Throw getter_exception
          end
      | None => Ok VUndefined
      end
  end.

(** [v.k = x] in non-strict code, as at the top level of the module.
    On [undefined] or [null] it throws; on a primitive it is dropped.
    On an object it depends on the object: a mutable one gets the
    property, unless [k] is an accessor without setter, which drops the
    assignment; a frozen one drops it; a guarded one throws. *)
Definition assign_prop (v : value) (k : string) (x : value) (st : state) : outcome state :=
  match v with
  | VUndefined | VNull => Throw "TypeError"
  | VRef l =>
      match heap st !! l with
      | Some o =>
          match obj_mutability o with
          | Mutable =>
              match obj_props o !! k with
              | Some (PGetter _) => Ok st
              | _ => Ok (set_prop l k x st)
              end
          | Frozen => Ok st
          | Guarded => Throw "Error"
          end
      | None => Ok st
      end
  | _ => Ok st
  end.

(** The value of an option as the sink's constructor reads it. *)
Definition option_value (h : gmap loc obj) (options : value) (k : string) : value :=
  default VUndefined (own_props h options !! k ≫= read_prop).

(** Modelled from the spec: [pino(options)] constructs a sink with the
    level and the enabled flag of its options and no bound field. *)
Definition pino (options : value) (st : state) : sref * state :=
  let s := fresh (dom (sinks st)) in
  (s, State (heap st)
            (<[s := Sink (option_value (heap st) options "level")
                         (option_value (heap st) options "enabled")
                         [] None]> (sinks st))
            (emitted st)).

(** [process.argv[1]] *)
Definition argv_1 (argv : list string) : value :=
  match argv !! 1%nat with
  | Some a => VStr a
  | None => VUndefined
  end.

(** The bindings of the module after its top-level code has run. *)
Record module := Module_ {
  loggerConfig : value;
  logger : sref;
  appName : value;
  baseLogger : sref;
}.

(** [exports.defaultLogger] *)
Definition defaultLogger (m : module) : sref := baseLogger m.

(** The top-level code of the module (lines 10 to 28), run against the
    configuration and the process' [argv] and [pid]. *)
Definition init (config : gmap string value) (argv : list string) (pid : Z)
    (st : state) : outcome (module * state) :=
  let '(empty, st) := alloc (Obj CPlain Mutable ∅) st in
  let loggerConfig :=
    if config_has config "logger" then config_get config "logger" else VRef empty in
  lvl ← get_prop (heap st) loggerConfig "level";
  st ← assign_prop loggerConfig "level" (js_or lvl (VStr "info")) st;
  en ← get_prop (heap st) loggerConfig "enabled";
  st ← assign_prop loggerConfig "enabled"
         (VBool (negb (strict_eq en (VBool false)))) st;
  let '(logger, st) := pino loggerConfig st in
  let appName :=
    if config_has config "appName" then config_get config "appName" else VUndefined in
  let '(baseLogger, st) :=
    child logger
      [("_app", js_or (js_or appName (argv_1 argv)) (VNum (NumZ pid)))] st in
  Ok (Module_ loggerConfig logger appName baseLogger, st).

(** [getLogger(moduleName, classFileName)]; [baseLogger] is the binding
    of the enclosing module. *)
Definition getLogger (baseLogger : sref) (moduleName classFileName : value)
    (st : state) : sref * state :=
  let newLogger := baseLogger in
  let '(newLogger, st) :=
    if negb (strict_eq moduleName VUndefined)
    then child newLogger [("_mod", moduleName)] st
    else (newLogger, st) in
  let '(newLogger, st) :=
    if negb (strict_eq classFileName VUndefined)
    then child newLogger [("_cls", classFileName)] st
    else (newLogger, st) in
  (newLogger, st).

(** [getContextLogger(moduleName, classFileName)] *)
Definition getContextLogger (baseLogger : sref) (moduleName classFileName : value)
    (st : state) : ContextLogger * state :=
  let '(l, st) := getLogger baseLogger moduleName classFileName st in
  ({| pinoLogger := l |}, st).

(** ** Observations *)

(** Whether the module loaded. *)
Definition loaded {A} (r : outcome A) : bool :=
  match r with
  | Ok _ => true
  | Throw _ => false
  end.

(** The object does not have [k] as an accessor property. *)
Definition no_accessor (o : obj) (k : string) : bool :=
  match obj_props o !! k with
  | Some (PGetter _) => false
  | _ => true
  end.

(** The [logger] section of the configuration is an object of the store
    that treats assignments as [mu] says and holds [level] and
    [enabled], when it has them, as data properties. *)
Definition logger_section (mu : mutability) (config : gmap string value)
    (h : gmap loc obj) : bool :=
  match config !! "logger" with
  | Some (VRef l) =>
      match h !! l with
      | Some o =>
          bool_decide (obj_mutability o = mu)
          && no_accessor o "level" && no_accessor o "enabled"
      | None => false
      end
  | _ => false
  end.

(** The value configured under [logger.<key>]; [undefined] when the
    section or the key is absent. *)
Definition configured (config : gmap string value) (h : gmap loc obj)
    (key : string) : value :=
  if config_has config "logger"
  then option_value h (config_get config "logger") key
  else VUndefined.

(** The configured [appName]; [undefined] when there is none. *)
Definition configured_appName (config : gmap string value) : value :=
  if config_has config "appName" then config_get config "appName" else VUndefined.

(** The sink constructed by [pino(loggerConfig)]. *)
Definition root_sink (r : outcome (module * state)) : option sink :=
  match r with
  | Ok (m, st) => sinks st !! logger m
  | Throw _ => None
  end.

(** The process-wide base logger. *)
Definition base_sink (r : outcome (module * state)) : option sink :=
  match r with
  | Ok (m, st) => sinks st !! baseLogger m
  | Throw _ => None
  end.

(** The process identity the top-level code computes. *)
Definition identity (config : gmap string value) (argv : list string) (pid : Z) : value :=
  js_or (js_or (configured_appName config) (argv_1 argv)) (VNum (NumZ pid)).

(** The process identity as the specification words it, decided by the
    presence of each source alone: the configured [appName] if there is
    one, else the invocation argument if there is one, else the process
    identifier. *)
Definition spec_identity (config : gmap string value) (argv : list string)
    (pid : Z) : value :=
  if config_has config "appName" then config_get config "appName"
  else match argv !! 1%nat with
       | Some a => VStr a
       | None => VNum (NumZ pid)
       end.

(** Every own enumerable property of the object can be read: none of
    its getters throws. *)
Definition readable (o : obj) : bool := all_readable (obj_props o).

(** The values of the own enumerable properties of an object, as read. *)
Definition values_of (o : obj) : gmap string value := omap read_prop (obj_props o).

(** A reference to a live plain structured object. *)
Definition is_plain_object (h : gmap loc obj) (v : value) : bool :=
  match v with
  | VRef l =>
      match obj_class_of <$> h !! l with
      | Some CPlain => true
      | _ => false
      end
  | _ => false
  end.

(** A record at another level. *)
Definition with_level (lv : level) (r : record) : record :=
  Rec (rec_sink r) lv (rec_args r).

(** ** Concrete inputs used by the examples *)

Definition empty_state : state := State ∅ ∅ [].

(** A process started as [node /srv/app.js] with pid 4242. *)
Definition demo_argv : list string := ["node"; "/srv/app.js"].
Definition demo_pid : Z := 4242.

(** The configuration [{ appName: "" }]. *)
Definition config_empty_appName : gmap string value := {[ "appName" := VStr "" ]}.

(** The configuration [{ appName: "billing" }]. *)
Definition config_billing : gmap string value := {[ "appName" := VStr "billing" ]}.

(** The module and the state of the process once the module has loaded
    under [config_billing]; the base logger is then the sink 2. *)
Definition loaded_module : module :=
  match init config_billing demo_argv demo_pid empty_state with
  | Ok (m, _) => m
  | Throw _ => Module_ VUndefined 1%positive VUndefined 1%positive
  end.

Definition loaded_state : state :=
  match init config_billing demo_argv demo_pid empty_state with
  | Ok (_, st) => st
  | Throw _ => empty_state
  end.

(** The base logger of [loaded_state]. *)
Definition loaded_base : sink :=
  Sink (VStr "info") (VBool true) [("_app", VStr "billing")] (Some 1%positive).

(** The configuration [{ logger: { enabled: 0 } }], its section at 1,
    as an object that takes assignments, drops them or rejects them. *)
Definition config_enabled_0 : gmap string value := {[ "logger" := VRef 1%positive ]}.
Definition state_enabled_0 (mu : mutability) : state :=
  State {[ 1%positive := Obj CPlain mu (data {[ "enabled" := VNum (NumZ 0) ]}) ]} ∅ [].

Definition log1 : ContextLogger := {| pinoLogger := 1%positive |}.

(** A store with the caller's object [{ id: 7, _fun: "old" }] at 1, the
    array [["a"]] at 2 and an error object at 3. *)
Definition demo_heap : gmap loc obj :=
  {[ 1%positive := Obj CPlain Mutable (data {[ "id" := VNum (NumZ 7); "_fun" := VStr "old" ]});
     2%positive := Obj CArray Mutable (data {[ "0" := VStr "a" ]});
     3%positive := Obj CError Mutable (data {[ "code" := VStr "E_IO" ]}) ]}.

Definition demo_state : state := State demo_heap ∅ [].

(** A store with three objects a caller may log: at 1 a plain object
    with a getter that throws, [{ id: 7, get secret() { throw ... } }];
    at 2 a plain object with an own [__proto__] property, as
    [JSON.parse('{"id": 7, "__proto__": 5}')] gives; at 3 an error
    carrying a [_fun] field of its own. *)
Definition odd_heap : gmap loc obj :=
  {[ 1%positive := Obj CPlain Mutable
                     (<["secret" := PGetter None]> (data {[ "id" := VNum (NumZ 7) ]}));
     2%positive := Obj CPlain Mutable
                     (data {[ "id" := VNum (NumZ 7); "__proto__" := VNum (NumZ 5) ]});
     3%positive := Obj CError Mutable (data {[ "_fun" := VStr "old" ]}) ]}.

Definition odd_state : state := State odd_heap ∅ [].

(** ** The shared shape of [debugF] and [traceF] *)

(** Both methods are the same text up to the severity method they call. *)
Definition tagged (lv : level) (this : ContextLogger) (functionName : value)
    (args : list value) (st : state) : result :=
  match args with
  | [] => Returned st
  | firstArg :: _ =>
      if instanceof_Error (heap st) firstArg then
        Returned (sink_log (pinoLogger this) lv args st)
      else if String.eqb (typeof (heap st) firstArg) "string" then
        let '(o, st1) := alloc (Obj CPlain Mutable (data {[ "_fun" := functionName ]})) st in
        Returned (sink_log (pinoLogger this) lv (VRef o :: args) st1)
      else if String.eqb (typeof (heap st) firstArg) "object"
              && negb (bool_decide (firstArg = VNull)) then
        let '(newFirstArg, st1) := alloc (Obj CPlain Mutable ∅) st in
        match object_assign newFirstArg firstArg st1 with
        | Some st2 =>
            let st3 := set_prop newFirstArg "_fun" functionName st2 in
            Returned (sink_log (pinoLogger this) lv
                        (<[0%nat := VRef newFirstArg]> args) st3)
        | None => Thrown getter_exception st
        end
      else
        Returned (sink_log (pinoLogger this) lv args st)
  end.

(** ** Calls in sequence *)

(** The plain severity method of [ContextLogger] for a level. *)
Definition invoke (lv : level) : ContextLogger → list value → state → state :=
  match lv with
  | Fatal => fatal
  | Error => error
  | Warn => warn
  | Info => info
  | Debug => debug
  | Trace => trace
  end.

(** Plain calls made one after the other on one logger. *)
Definition invoke_all (this : ContextLogger) (calls : list (level * list value))
    (st : state) : state :=
  foldl (λ st c, invoke c.1 this c.2 st) st calls.

(** The fields [getLogger] binds for a pair of names. *)
Definition name_fields (moduleName classFileName : value) : list (string * value) :=
  (if strict_eq moduleName VUndefined then [] else [("_mod", moduleName)]) ++
  (if strict_eq classFileName VUndefined then [] else [("_cls", classFileName)]).

Lemma debugF_tagged this f args st : debugF this f args st = tagged Debug this f args st.
Proof. reflexivity. Qed.

Lemma traceF_tagged this f args st : traceF this f args st = tagged Trace this f args st.
Proof. reflexivity. Qed.

(** ** Allocation *)

Lemma fresh_loc_None {V} (h : gmap positive V) : h !! fresh (dom h) = None.
Proof. apply not_elem_of_dom, is_fresh. Qed.

Lemma fresh_loc_ne {V} (h : gmap positive V) l o : h !! l = Some o → fresh (dom h) ≠ l.
Proof. intros Hl Heq. rewrite <- Heq, fresh_loc_None in Hl. discriminate. Qed.


(** ** The branches of [debugF] and [traceF] *)

Lemma instanceof_Error_alloc (h : gmap loc obj) m ps v :
  instanceof_Error (<[fresh (dom h) := Obj CPlain m ps]> h) v = instanceof_Error h v.
Proof.
  destruct v as [| | | | | | |l]; try done. cbn.
  destruct (decide (fresh (dom h) = l)) as [<-|Hne].
  - by rewrite lookup_insert_eq, fresh_loc_None.
  - by rewrite lookup_insert_ne.
Qed.

Lemma own_props_alloc (h : gmap loc obj) c m v :
  own_props (<[fresh (dom h) := Obj c m ∅]> h) v = own_props h v.
Proof.
  destruct v as [| | | | | | |l]; try done. cbn.
  destruct (decide (fresh (dom h) = l)) as [<-|Hne].
  - by rewrite lookup_insert_eq, fresh_loc_None.
  - by rewrite lookup_insert_ne.
Qed.

Lemma read_own_alloc (h : gmap loc obj) c m v :
  read_own (<[fresh (dom h) := Obj c m ∅]> h) v = read_own h v.
Proof. unfold read_own. by rewrite own_props_alloc. Qed.

Lemma proto_class_alloc (h : gmap loc obj) m ps vs c :
  proto_class (<[fresh (dom h) := Obj CPlain m ps]> h) vs c = proto_class h vs c.
Proof.
  unfold proto_class. destruct (vs !! "__proto__") as [[]|]; try done.
  by rewrite instanceof_Error_alloc.
Qed.

Lemma read_own_live h l o :
  h !! l = Some o →
  read_own h (VRef l) = if readable o then Some (values_of o) else None.
Proof. intros Hl. unfold read_own, readable, values_of. cbn. by rewrite Hl. Qed.

Lemma values_of_lookup o k : values_of o !! k = obj_props o !! k ≫= read_prop.
Proof. unfold values_of. apply lookup_omap. Qed.

Lemma proto_class_absent h o c :
  obj_props o !! "__proto__" = None → proto_class h (values_of o) c = c.
Proof. intros Hp. unfold proto_class. by rewrite values_of_lookup, Hp. Qed.

Lemma delete_proto_absent o :
  obj_props o !! "__proto__" = None →
  delete "__proto__" (values_of o) = values_of o.
Proof. intros Hp. apply delete_id. by rewrite values_of_lookup, Hp. Qed.

Section Tagged.
Variables (lv : level) (this : ContextLogger) (f : value).

(** The copying branch, for a first argument whose value list could be
    read. *)
Lemma tagged_copy first rest st vs :
  instanceof_Error (heap st) first = false →
  typeof (heap st) first = "object" →
  first ≠ VNull →
  read_own (heap st) first = Some vs →
  tagged lv this f (first :: rest) st =
    Returned
      (State (<[fresh (dom (heap st)) :=
                  Obj (proto_class (heap st) vs CPlain) Mutable
                      (<["_fun" := PData f]> (data (delete "__proto__" vs)))]> (heap st))
             (sinks st)
             (emitted st ++ [Rec (pinoLogger this) lv (VRef (fresh (dom (heap st))) :: rest)])).
Proof.
  intros He Ht Hn Hr. unfold tagged. rewrite He, Ht.
  rewrite bool_decide_eq_false_2 by done. cbn [String.eqb Ascii.eqb Bool.eqb andb negb].
  unfold alloc, object_assign. cbn [heap sinks emitted].
  rewrite read_own_alloc, Hr. cbn [mbind option_bind].
  unfold set_prop, sink_log. cbn [heap sinks emitted].
  rewrite !alter_insert_eq. cbn [obj_class_of obj_mutability obj_props].
  rewrite proto_class_alloc, (right_id_L ∅ (∪)). reflexivity.
Qed.

(** The copying branch, when a getter of the first argument throws. *)
Lemma tagged_throws first rest st :
  instanceof_Error (heap st) first = false →
  typeof (heap st) first = "object" →
  first ≠ VNull →
  read_own (heap st) first = None →
  tagged lv this f (first :: rest) st = Thrown getter_exception st.
Proof.
  intros He Ht Hn Hr. unfold tagged. rewrite He, Ht.
  rewrite bool_decide_eq_false_2 by done. cbn [String.eqb Ascii.eqb Bool.eqb andb negb].
  unfold alloc, object_assign. cbn [heap sinks emitted].
  by rewrite read_own_alloc, Hr.
Qed.

(** The copying branch for a live object whose properties can all be
    read and that has no own [__proto__] property. *)
Lemma tagged_object l o rest st :
  heap st !! l = Some o →
  instanceof_Error (heap st) (VRef l) = false →
  typeof (heap st) (VRef l) = "object" →
  readable o = true →
  obj_props o !! "__proto__" = None →
  tagged lv this f (VRef l :: rest) st =
    Returned
      (State (<[fresh (dom (heap st)) :=
                  Obj CPlain Mutable (data (<["_fun" := f]> (values_of o)))]> (heap st))
             (sinks st)
             (emitted st ++ [Rec (pinoLogger this) lv (VRef (fresh (dom (heap st))) :: rest)])).
Proof.
  intros Hl He Ht Hr Hp.
  rewrite (tagged_copy (VRef l) rest st (values_of o)); try done.
  - rewrite (proto_class_absent _ _ _ Hp), (delete_proto_absent _ Hp).
    unfold data. by rewrite fmap_insert.
  - by rewrite (read_own_live _ _ _ Hl), Hr.
Qed.

Lemma tagged_string s rest st :
  tagged lv this f (VStr s :: rest) st =
    Returned
      (State (<[fresh (dom (heap st)) := Obj CPlain Mutable (data {["_fun" := f]})]> (heap st))
             (sinks st)
             (emitted st ++ [Rec (pinoLogger this) lv
                               (VRef (fresh (dom (heap st))) :: VStr s :: rest)])).
Proof. reflexivity. Qed.

Lemma tagged_error first rest st :
  instanceof_Error (heap st) first = true →
  tagged lv this f (first :: rest) st
    = Returned (sink_log (pinoLogger this) lv (first :: rest) st).
Proof. intros He. unfold tagged. by rewrite He. Qed.

Lemma typeof_not_object_not_error h v :
  typeof h v ≠ "object" ∨ v = VNull → instanceof_Error h v = false.
Proof.
  intros [Ht | ->]; [|done].
  destruct v as [| | | | | | |l]; try done.
  cbn in *. destruct (h !! l) as [[[] ? ?]|]; done.
Qed.

Lemma tagged_other first rest st :
  typeof (heap st) first ≠ "string" →
  typeof (heap st) first ≠ "object" ∨ first = VNull →
  tagged lv this f (first :: rest) st
    = Returned (sink_log (pinoLogger this) lv (first :: rest) st).
Proof.
  intros Hs Ho. unfold tagged.
  rewrite (typeof_not_object_not_error _ _ Ho).
  destruct (String.eqb_spec (typeof (heap st) first) "string") as [|_]; [done|].
  destruct Ho as [Ho | ->]; [|done].
  destruct (String.eqb_spec (typeof (heap st) first) "object") as [|_]; done.
Qed.

End Tagged.


Lemma plain_not_error h l o :
  h !! l = Some o → obj_class_of o = CPlain → instanceof_Error h (VRef l) = false.
Proof. intros Hl Hc. cbn. rewrite Hl. cbn. by rewrite Hc. Qed.

Lemma plain_typeof h l o :
  h !! l = Some o → obj_class_of o = CPlain → typeof h (VRef l) = "object".
Proof. intros Hl Hc. cbn. rewrite Hl. cbn. by rewrite Hc. Qed.

(** The four ways a call with a first argument can go, the same at
    every level. *)
Lemma tagged_cases this f first rest st :
  (∀ lv, tagged lv this f (first :: rest) st
         = Returned (sink_log (pinoLogger this) lv (first :: rest) st))
  ∨ (∀ lv, tagged lv this f (first :: rest) st
     = Returned
         (State (<[fresh (dom (heap st)) := Obj CPlain Mutable (data {["_fun" := f]})]> (heap st))
                (sinks st)
                (emitted st ++ [Rec (pinoLogger this) lv
                                  (VRef (fresh (dom (heap st))) :: first :: rest)])))
  ∨ (∃ vs, read_own (heap st) first = Some vs ∧
       ∀ lv, tagged lv this f (first :: rest) st
       = Returned
           (State (<[fresh (dom (heap st)) :=
                       Obj (proto_class (heap st) vs CPlain) Mutable
                           (<["_fun" := PData f]> (data (delete "__proto__" vs)))]> (heap st))
                  (sinks st)
                  (emitted st ++ [Rec (pinoLogger this) lv
                                    (VRef (fresh (dom (heap st))) :: rest)])))
  ∨ (instanceof_Error (heap st) first = false ∧
     typeof (heap st) first = "object" ∧
     first ≠ VNull ∧
     read_own (heap st) first = None ∧
     ∀ lv, tagged lv this f (first :: rest) st = Thrown getter_exception st).
Proof.
  destruct (instanceof_Error (heap st) first) eqn:He.
  { left. intros lv. by apply tagged_error. }
  destruct (String.eqb_spec (typeof (heap st) first) "string") as [Hs|Hs].
  { right; left. intros lv. unfold tagged. by rewrite He, Hs. }
  destruct (String.eqb_spec (typeof (heap st) first) "object") as [Ho|Ho].
  - destruct (decide (first = VNull)) as [Hn|Hn].
    { left. intros lv. apply tagged_other; auto. }
    destruct (read_own (heap st) first) as [vs|] eqn:Hr.
    + right; right; left. exists vs. split; [done|]. intros lv. by apply tagged_copy.
    + right; right; right. split_and!; try done. intros lv. by apply tagged_throws.
  - left. intros lv. apply tagged_other; auto.
Qed.

(** Whatever the arguments, and whether the call returns or throws, no
    object of the store is changed or removed by it. *)
Lemma tagged_frame lv this f args st k x :
  heap st !! k = Some x → heap (after (tagged lv this f args st)) !! k = Some x.
Proof.
  intros Hk. destruct args as [|first rest]; [done|].
  pose proof (fresh_loc_ne _ _ _ Hk) as Hne.
  destruct (tagged_cases this f first rest st)
    as [H | [H | [(vs & _ & H) | (_ & _ & _ & _ & H)]]]; rewrite H.
  all: cbn; try done; by rewrite lookup_insert_ne.
Qed.

(** ** Function-scoped logging *)

(** C1, as stated, fails on two kinds of plain object.  When an own
    property is an accessor whose getter throws, [Object.assign] throws
    and the sink receives no record.  When the object has an own
    property named [__proto__], the copy does not get it: the assignment
    goes to the setter inherited from [Object.prototype]. *)
Lemma debugF_getter_or_proto_not_copied :
  is_plain_object (heap odd_state) (VRef 1%positive) = true ∧
  debugF log1 (VStr "f") [VRef 1%positive; VStr "m"] odd_state
    = Thrown getter_exception odd_state ∧
  emitted (after (debugF log1 (VStr "f") [VRef 1%positive; VStr "m"] odd_state)) = [] ∧
  is_plain_object (heap odd_state) (VRef 2%positive) = true ∧
  own_props (heap odd_state) (VRef 2%positive) !! "__proto__" = Some (PData (VNum (NumZ 5))) ∧
  emitted (after (debugF log1 (VStr "f") [VRef 2%positive; VStr "m"] odd_state))
    = [Rec 1%positive Debug [VRef 4%positive; VStr "m"]] ∧
  heap (after (debugF log1 (VStr "f") [VRef 2%positive; VStr "m"] odd_state)) !! 4%positive
    = Some (Obj CPlain Mutable (data {[ "id" := VNum (NumZ 7); "_fun" := VStr "f" ]})).
Proof. split_and!; reflexivity. Qed.

(** C1, amended.  For a non-null plain object [o] as first argument,
    whose own enumerable properties can all be read and none of which is
    named [__proto__], [debugF] (resp. [traceF]) returns after exactly
    one call of the sink's [debug] (resp. [trace]) method; its first
    argument is a newly allocated plain object holding the values of the
    properties of [o] with [_fun] set to the function name, and the
    remaining arguments follow unchanged and in order. *)
Theorem debugF_traceF_object_copy this f l o rest st :
  heap st !! l = Some o →
  obj_class_of o = CPlain →
  readable o = true →
  obj_props o !! "__proto__" = None →
  let l' := fresh (dom (heap st)) in
  let copy := Obj CPlain Mutable (data (<["_fun" := f]> (values_of o))) in
  heap st !! l' = None ∧
  (thrown (debugF this f (VRef l :: rest) st) = None ∧
   emitted (after (debugF this f (VRef l :: rest) st))
     = emitted st ++ [Rec (pinoLogger this) Debug (VRef l' :: rest)] ∧
   heap (after (debugF this f (VRef l :: rest) st)) !! l' = Some copy) ∧
  (thrown (traceF this f (VRef l :: rest) st) = None ∧
   emitted (after (traceF this f (VRef l :: rest) st))
     = emitted st ++ [Rec (pinoLogger this) Trace (VRef l' :: rest)] ∧
   heap (after (traceF this f (VRef l :: rest) st)) !! l' = Some copy).
Proof.
  intros Hl Hc Hr Hp l' copy.
  pose proof (plain_not_error _ _ _ Hl Hc) as He.
  pose proof (plain_typeof _ _ _ Hl Hc) as Ht.
  split; [apply fresh_loc_None|].
  rewrite debugF_tagged, traceF_tagged.
  rewrite !(tagged_object _ _ _ _ _ _ _ Hl He Ht Hr Hp). cbn.
  by rewrite lookup_insert_eq.
Qed.

Lemma debugF_traceF_object_copy_witness :
  heap demo_state !! 4%positive = None ∧
  (thrown (debugF log1 (VStr "f") [VRef 1%positive; VStr "m"] demo_state) = None ∧
   emitted (after (debugF log1 (VStr "f") [VRef 1%positive; VStr "m"] demo_state))
     = [Rec 1%positive Debug [VRef 4%positive; VStr "m"]] ∧
   heap (after (debugF log1 (VStr "f") [VRef 1%positive; VStr "m"] demo_state)) !! 4%positive
     = Some (Obj CPlain Mutable
               (data (<["_fun" := VStr "f"]>
                        {[ "id" := VNum (NumZ 7); "_fun" := VStr "old" ]})))) ∧
  (thrown (traceF log1 (VStr "f") [VRef 1%positive; VStr "m"] demo_state) = None ∧
   emitted (after (traceF log1 (VStr "f") [VRef 1%positive; VStr "m"] demo_state))
     = [Rec 1%positive Trace [VRef 4%positive; VStr "m"]] ∧
   heap (after (traceF log1 (VStr "f") [VRef 1%positive; VStr "m"] demo_state)) !! 4%positive
     = Some (Obj CPlain Mutable
               (data (<["_fun" := VStr "f"]>
                        {[ "id" := VNum (NumZ 7); "_fun" := VStr "old" ]})))).
Proof.
  exact (debugF_traceF_object_copy log1 (VStr "f") 1%positive
           (Obj CPlain Mutable (data {[ "id" := VNum (NumZ 7); "_fun" := VStr "old" ]}))
           [VStr "m"] demo_state eq_refl eq_refl eq_refl eq_refl).
Defined.



(** C3. With no argument after the function name, [debugF] and [traceF]
    return without calling any method of the sink: the journal of
    emitted records, and the whole state, are unchanged. *)
Theorem debugF_traceF_no_args this f st :
  debugF this f [] st = Returned st ∧ traceF this f [] st = Returned st ∧
  emitted (after (debugF this f [] st)) = emitted st ∧
  emitted (after (traceF this f [] st)) = emitted st.
Proof. done. Qed.

(** C4. When the first argument is an error instance, [debugF] does
    exactly what the plain [debug] call does on the same arguments (and
    [traceF] what [trace] does): one record with the arguments
    unchanged, and no object of the store, the error included, is
    touched. *)
Theorem debugF_traceF_error_passthrough this f first rest st :
  instanceof_Error (heap st) first = true →
  debugF this f (first :: rest) st = Returned (debug this (first :: rest) st) ∧
  traceF this f (first :: rest) st = Returned (trace this (first :: rest) st) ∧
  heap (after (debugF this f (first :: rest) st)) = heap st ∧
  heap (after (traceF this f (first :: rest) st)) = heap st.
Proof.
  intros He. rewrite debugF_tagged, traceF_tagged.
  by rewrite !(tagged_error _ _ _ _ _ _ He).
Qed.

Lemma debugF_traceF_error_passthrough_witness :
  debugF log1 (VStr "f") [VRef 3%positive; VStr "m"] demo_state
    = Returned (debug log1 [VRef 3%positive; VStr "m"] demo_state) ∧
  traceF log1 (VStr "f") [VRef 3%positive; VStr "m"] demo_state
    = Returned (trace log1 [VRef 3%positive; VStr "m"] demo_state) ∧
  heap (after (debugF log1 (VStr "f") [VRef 3%positive; VStr "m"] demo_state))
    = heap demo_state ∧
  heap (after (traceF log1 (VStr "f") [VRef 3%positive; VStr "m"] demo_state))
    = heap demo_state.
Proof.
  exact (debugF_traceF_error_passthrough log1 (VStr "f") (VRef 3%positive)
           [VStr "m"] demo_state eq_refl).
Defined.

(** C5. When the first argument is a string [s], a new object holding
    only the function-name field ([_fun], set to the function name) is
    put in front of the arguments: the call returns after the sink's
    method has received that object, then [s], then the rest. *)
Theorem debugF_traceF_string_prepends this f s rest st :
  let l' := fresh (dom (heap st)) in
  heap st !! l' = None ∧
  (thrown (debugF this f (VStr s :: rest) st) = None ∧
   emitted (after (debugF this f (VStr s :: rest) st))
     = emitted st ++ [Rec (pinoLogger this) Debug (VRef l' :: VStr s :: rest)] ∧
   heap (after (debugF this f (VStr s :: rest) st)) !! l'
     = Some (Obj CPlain Mutable (data {["_fun" := f]}))) ∧
  (thrown (traceF this f (VStr s :: rest) st) = None ∧
   emitted (after (traceF this f (VStr s :: rest) st))
     = emitted st ++ [Rec (pinoLogger this) Trace (VRef l' :: VStr s :: rest)] ∧
   heap (after (traceF this f (VStr s :: rest) st)) !! l'
     = Some (Obj CPlain Mutable (data {["_fun" := f]}))).
Proof.
  intros l'. split; [apply fresh_loc_None|].
  rewrite debugF_tagged, traceF_tagged, !tagged_string. cbn.
  by rewrite lookup_insert_eq.
Qed.

(** The instance of C5 the specification names. *)
Example debugF_just_a_string f :
  emitted (after (debugF log1 f [VStr "just a string"] demo_state))
    = [Rec 1%positive Debug [VRef 4%positive; VStr "just a string"]] ∧
  heap (after (debugF log1 f [VStr "just a string"] demo_state)) !! 4%positive
    = Some (Obj CPlain Mutable (data {["_fun" := f]})).
Proof. split; reflexivity. Qed.

(** C6, as stated, fails: an array in first position is neither an error
    instance, nor a string, nor a plain object, yet it is not passed
    through.  [typeof] answers ["object"] for it, so [debugF] hands the
    sink a new plain object with the array's elements under their index
    keys and the function name under [_fun]. *)
Lemma debugF_array_not_passthrough :
  instanceof_Error (heap demo_state) (VRef 2%positive) = false ∧
  typeof (heap demo_state) (VRef 2%positive) ≠ "string" ∧
  is_plain_object (heap demo_state) (VRef 2%positive) = false ∧
  debugF log1 (VStr "f") [VRef 2%positive; VStr "m"] demo_state
    ≠ Returned (debug log1 [VRef 2%positive; VStr "m"] demo_state) ∧
  emitted (after (debugF log1 (VStr "f") [VRef 2%positive; VStr "m"] demo_state))
    = [Rec 1%positive Debug [VRef 4%positive; VStr "m"]] ∧
  heap (after (debugF log1 (VStr "f") [VRef 2%positive; VStr "m"] demo_state)) !! 4%positive
    = Some (Obj CPlain Mutable (data {[ "0" := VStr "a"; "_fun" := VStr "f" ]})).
Proof.
  split_and!; try reflexivity; try discriminate.
Qed.

(** C6, amended.  When the first argument is not a string and is not a
    non-null value for which [typeof] answers ["object"] (so: undefined,
    null, a boolean, a number, a bigint, a symbol or a function),
    [debugF] and [traceF] do exactly what the plain [debug] and [trace]
    calls do on the same arguments, and leave the store as it was. *)
Theorem debugF_traceF_non_object_passthrough this f first rest st :
  typeof (heap st) first ≠ "string" →
  typeof (heap st) first ≠ "object" ∨ first = VNull →
  debugF this f (first :: rest) st = Returned (debug this (first :: rest) st) ∧
  traceF this f (first :: rest) st = Returned (trace this (first :: rest) st) ∧
  heap (after (debugF this f (first :: rest) st)) = heap st ∧
  heap (after (traceF this f (first :: rest) st)) = heap st.
Proof.
  intros Hs Ho. rewrite debugF_tagged, traceF_tagged.
  by rewrite !(tagged_other _ _ _ _ _ _ Hs Ho).
Qed.

Lemma debugF_traceF_non_object_passthrough_witness :
  debugF log1 (VStr "f") [VNum (NumZ 42); VStr "m"] demo_state
    = Returned (debug log1 [VNum (NumZ 42); VStr "m"] demo_state) ∧
  traceF log1 (VStr "f") [VNum (NumZ 42); VStr "m"] demo_state
    = Returned (trace log1 [VNum (NumZ 42); VStr "m"] demo_state) ∧
  heap (after (debugF log1 (VStr "f") [VNum (NumZ 42); VStr "m"] demo_state))
    = heap demo_state ∧
  heap (after (traceF log1 (VStr "f") [VNum (NumZ 42); VStr "m"] demo_state))
    = heap demo_state.
Proof.
  apply (debugF_traceF_non_object_passthrough log1 (VStr "f") (VNum (NumZ 42))
           [VStr "m"] demo_state); [discriminate | left; discriminate].
Defined.

(** The primitive first arguments C6 lists, one by one. *)
Example debugF_primitives_passthrough this f rest st v :
  v ∈ [VUndefined; VNull; VBool true; VBool false; VNum (NumZ 0); VNum NumNaN] →
  debugF this f (v :: rest) st = Returned (debug this (v :: rest) st) ∧
  traceF this f (v :: rest) st = Returned (trace this (v :: rest) st).
Proof.
  intros Hv. rewrite !elem_of_cons, elem_of_nil in Hv.
  destruct Hv as [->|[->|[->|[->|[->|[->|[]]]]]]]; done.
Qed.

(** C10, as stated, fails: an error instance is a non-null object, and
    when it carries a [_fun] field of its own it is passed to the sink
    as it is, with the caller's value under [_fun]; and an object with a
    getter that throws gives no record at all. *)
Lemma debugF_error_keeps_fun :
  typeof (heap odd_state) (VRef 3%positive) = "object" ∧
  own_props (heap odd_state) (VRef 3%positive) !! "_fun" = Some (PData (VStr "old")) ∧
  debugF log1 (VStr "f") [VRef 3%positive; VStr "m"] odd_state
    = Returned (debug log1 [VRef 3%positive; VStr "m"] odd_state) ∧
  rec_args <$> emitted (after (debugF log1 (VStr "f") [VRef 3%positive; VStr "m"] odd_state))
    = [[VRef 3%positive; VStr "m"]] ∧
  own_props (heap (after (debugF log1 (VStr "f") [VRef 3%positive; VStr "m"] odd_state)))
    (VRef 3%positive) !! "_fun" = Some (PData (VStr "old")) ∧
  emitted (after (debugF log1 (VStr "f") [VRef 1%positive; VStr "m"] odd_state)) = [].
Proof. split_and!; reflexivity. Qed.

(** C10, amended.  When the first argument is a non-null object that is
    not an error instance, whose own properties can all be read and none
    of which is named [__proto__], and it already has a [_fun] field,
    the copy handed to the sink carries the function name under [_fun],
    not the caller's value, which stays in the caller's object; every
    other field of the copy holds the value read from the caller's. *)
Theorem debugF_traceF_fun_overwritten this f l o old rest st :
  heap st !! l = Some o →
  instanceof_Error (heap st) (VRef l) = false →
  typeof (heap st) (VRef l) = "object" →
  readable o = true →
  obj_props o !! "__proto__" = None →
  obj_props o !! "_fun" = Some old →
  let l' := fresh (dom (heap st)) in
  (∃ o', rec_args <$> last (emitted (after (debugF this f (VRef l :: rest) st)))
           = Some (VRef l' :: rest) ∧
         heap (after (debugF this f (VRef l :: rest) st)) !! l' = Some o' ∧
         obj_props o' !! "_fun" = Some (PData f) ∧
         ∀ k, k ≠ "_fun" → obj_props o' !! k = PData <$> values_of o !! k) ∧
  (∃ o', rec_args <$> last (emitted (after (traceF this f (VRef l :: rest) st)))
           = Some (VRef l' :: rest) ∧
         heap (after (traceF this f (VRef l :: rest) st)) !! l' = Some o' ∧
         obj_props o' !! "_fun" = Some (PData f) ∧
         ∀ k, k ≠ "_fun" → obj_props o' !! k = PData <$> values_of o !! k) ∧
  own_props (heap (after (debugF this f (VRef l :: rest) st))) (VRef l) !! "_fun" = Some old ∧
  own_props (heap (after (traceF this f (VRef l :: rest) st))) (VRef l) !! "_fun" = Some old.
Proof.
  intros Hl He Ht Hr Hp Hold l'.
  assert (Hframe : ∀ lv, own_props (heap (after (tagged lv this f (VRef l :: rest) st)))
                           (VRef l) !! "_fun" = Some old).
  { intros lv. cbn [own_props]. by rewrite (tagged_frame lv this f _ st l o Hl). }
  rewrite debugF_tagged, traceF_tagged.
  split_and!; [| |apply Hframe..].
  all: eexists; rewrite (tagged_object _ _ _ _ _ _ _ Hl He Ht Hr Hp); cbn.
  all: rewrite last_snoc, lookup_insert_eq; split_and!; [done|done|..]; cbn.
  all: unfold data; rewrite ?lookup_fmap.
  all: try (by rewrite lookup_insert_eq).
  all: intros k Hk; by rewrite lookup_fmap, lookup_insert_ne.
Qed.

Lemma debugF_traceF_fun_overwritten_witness :
  ∃ o', rec_args <$> last (emitted (after (debugF log1 (VStr "f") [VRef 1%positive] demo_state)))
          = Some [VRef (fresh (dom (heap demo_state)))] ∧
        heap (after (debugF log1 (VStr "f") [VRef 1%positive] demo_state))
          !! fresh (dom (heap demo_state)) = Some o' ∧
        obj_props o' !! "_fun" = Some (PData (VStr "f")) ∧
        ∀ k, k ≠ "_fun" → obj_props o' !! k
          = PData <$> values_of (Obj CPlain Mutable
                        (data {[ "id" := VNum (NumZ 7); "_fun" := VStr "old" ]})) !! k.
Proof.
  exact (proj1 (debugF_traceF_fun_overwritten log1 (VStr "f") 1%positive
           (Obj CPlain Mutable (data {[ "id" := VNum (NumZ 7); "_fun" := VStr "old" ]}))
           (PData (VStr "old")) [] demo_state eq_refl eq_refl eq_refl eq_refl eq_refl eq_refl)).
Defined.

(** ** Module initialisation *)

Lemma strict_eq_false_iff v : strict_eq v (VBool false) = true ↔ v = VBool false.
Proof.
  unfold strict_eq. destruct v as [| |b|[z|]| | | |]; cbn; try (split; done).
  all: by rewrite bool_decide_eq_true.
Qed.

Lemma strict_eq_undefined v : v ≠ VUndefined → strict_eq v VUndefined = false.
Proof.
  intros Hv. unfold strict_eq.
  destruct v as [| |b|[z|]| | | |]; try done; by apply bool_decide_eq_false.
Qed.

Lemma alter_live {V} (g : V → V) (h : gmap positive V) l o :
  h !! l = Some o → alter g l h = <[l := g o]> h.
Proof.
  intros Hl. apply map_eq. intros k.
  destruct (decide (l = k)) as [<-|Hne].
  - by rewrite lookup_alter_eq, lookup_insert_eq, Hl.
  - by rewrite lookup_alter_ne, lookup_insert_ne.
Qed.

Lemma get_prop_live h l o k :
  h !! l = Some o →
  no_accessor o k = true →
  get_prop h (VRef l) k = Ok (default VUndefined (obj_props o !! k ≫= read_prop)).
Proof.
  intros Hl Hk. unfold get_prop, no_accessor in *. cbn [own_props]. rewrite Hl.
  by destruct (obj_props o !! k) as [[v|r]|].
Qed.

Lemma option_value_live h l o k :
  h !! l = Some o →
  option_value h (VRef l) k = default VUndefined (obj_props o !! k ≫= read_prop).
Proof. intros Hl. unfold option_value. cbn [own_props]. by rewrite Hl. Qed.

Lemma assign_prop_mutable l o k x st :
  heap st !! l = Some o →
  obj_mutability o = Mutable →
  no_accessor o k = true →
  assign_prop (VRef l) k x st
    = Ok (State (<[l := Obj (obj_class_of o) Mutable (<[k := PData x]> (obj_props o))]> (heap st))
                (sinks st) (emitted st)).
Proof.
  intros Hl Hm Hk. unfold assign_prop, no_accessor, set_prop in *. rewrite Hl, Hm.
  rewrite (alter_live _ _ _ _ Hl), Hm.
  by destruct (obj_props o !! k) as [[v|r]|].
Qed.

Lemma assign_prop_frozen l o k x st :
  heap st !! l = Some o →
  obj_mutability o = Frozen →
  assign_prop (VRef l) k x st = Ok st.
Proof. intros Hl Hm. unfold assign_prop. by rewrite Hl, Hm. Qed.

Lemma assign_prop_guarded l o k x st :
  heap st !! l = Some o →
  obj_mutability o = Guarded →
  assign_prop (VRef l) k x st = Throw "Error".
Proof. intros Hl Hm. unfold assign_prop. by rewrite Hl, Hm. Qed.

(** An assignment creates no sink and emits nothing. *)
Lemma assign_prop_frame v k x st st' :
  assign_prop v k x st = Ok st' → sinks st' = sinks st ∧ emitted st' = emitted st.
Proof.
  unfold assign_prop, set_prop. intros H.
  repeat case_match; by simplify_eq.
Qed.

Lemma config_absent config :
  config_has config "logger" = false →
  config !! "logger" = None ∨ config !! "logger" = Some VUndefined.
Proof.
  unfold config_has. destruct (config !! "logger") as [v|]; [|by left].
  intros H. destruct (decide (v = VUndefined)) as [->|Hne]; [by right|].
  by rewrite (strict_eq_undefined _ Hne) in H.
Qed.

Lemma logger_section_inv mu config h :
  logger_section mu config h = true →
  ∃ l o,
    config !! "logger" = Some (VRef l) ∧
    h !! l = Some o ∧
    obj_mutability o = mu ∧
    no_accessor o "level" = true ∧
    no_accessor o "enabled" = true ∧
    config_has config "logger" = true ∧
    config_get config "logger" = VRef l ∧
    ∀ k, configured config h k = default VUndefined (obj_props o !! k ≫= read_prop).
Proof.
  unfold logger_section, configured, config_has, config_get. intros Hsec.
  destruct (config !! "logger") as [[| | | | | | |l]|] eqn:Hlog; try done.
  destruct (h !! l) as [o|] eqn:Hl; [|done].
  apply andb_prop in Hsec as [[Hm%bool_decide_eq_true Ha]%andb_prop Hb].
  exists l, o. split_and!; try done. intros k. cbn. by apply option_value_live.
Qed.

(** What the top-level code provides whenever the module loads: the
    root sink and the base logger, its child binding the identity. *)
Lemma init_loaded_inv config argv pid st m st' :
  init config argv pid st = Ok (m, st') →
  ∃ lv en,
    logger m = fresh (dom (sinks st)) ∧
    baseLogger m = fresh (dom (<[fresh (dom (sinks st)) := Sink lv en [] None]> (sinks st))) ∧
    sinks st' =
      <[baseLogger m := Sink lv en [("_app", identity config argv pid)] (Some (logger m))]>
        (<[logger m := Sink lv en [] None]> (sinks st)) ∧
    emitted st' = emitted st.
Proof.
  unfold init, alloc. lazy beta iota zeta.
  set (st1 := State _ (sinks st) (emitted st)).
  set (lc := if config_has config "logger" then _ else _).
  destruct (get_prop (heap st1) lc "level") as [lvl|] eqn:E1; [|done].
  cbn [mbind outcome_bind].
  destruct (assign_prop lc "level" _ st1) as [st2|] eqn:E2; [|done].
  cbn [mbind outcome_bind].
  destruct (get_prop (heap st2) lc "enabled") as [en|] eqn:E3; [|done].
  cbn [mbind outcome_bind].
  destruct (assign_prop lc "enabled" _ st2) as [st3|] eqn:E4; [|done].
  cbn [mbind outcome_bind].
  apply assign_prop_frame in E2 as [Hs2 He2].
  apply assign_prop_frame in E4 as [Hs4 He4].
  unfold pino, child. lazy beta iota zeta. cbn [sinks heap emitted].
  rewrite lookup_insert_eq. cbn [default sink_level sink_enabled sink_bindings app].
  rewrite Hs4, Hs2, He4, He2. cbn [sinks emitted].
  intros [= <- <-]. eexists _, _. cbn [logger baseLogger sinks emitted].
  split_and!; reflexivity.
Qed.

(** The two sinks added by a successful load are new and distinct. *)
Lemma two_fresh_sinks (ss : gmap sref sink) root :
  let r := fresh (dom ss) in
  let b := fresh (dom (<[r := root]> ss)) in
  ss !! r = None ∧ ss !! b = None ∧ r ≠ b.
Proof.
  intros r b.
  assert (Hr : ss !! r = None) by apply fresh_loc_None.
  assert (Hb1 : <[r := root]> ss !! b = None) by apply fresh_loc_None.
  assert (Hbr : r ≠ b).
  { intros Heq. rewrite <- Heq, lookup_insert_eq in Hb1. discriminate. }
  split_and!; try done. by rewrite lookup_insert_ne in Hb1.
Qed.

(** The state the top-level code leaves when there is no [logger]
    section, or when the section is a mutable object: the options object
    [l] (the section, or the fresh object when there is none) with the
    two resolved options written to it, and the two sinks added. *)
Lemma init_resolves config argv pid st :
  config_has config "logger" = false ∨ logger_section Mutable config (heap st) = true →
  let e := fresh (dom (heap st)) in
  let h1 := <[e := Obj CPlain Mutable ∅]> (heap st) in
  let lvl := js_or (configured config (heap st) "level") (VStr "info") in
  let en := VBool (negb (strict_eq (configured config (heap st) "enabled") (VBool false))) in
  let r := fresh (dom (sinks st)) in
  let b := fresh (dom (<[r := Sink lvl en [] None]> (sinks st))) in
  ∃ l o,
    (if config_has config "logger" then config !! "logger" = Some (VRef l) else l = e) ∧
    h1 !! l = Some o ∧
    (∀ k, configured config (heap st) k = default VUndefined (obj_props o !! k ≫= read_prop)) ∧
    init config argv pid st =
      Ok (Module_ (VRef l) r (configured_appName config) b,
          State (<[l := Obj (obj_class_of o) Mutable
                          (<["enabled" := PData en]> (<["level" := PData lvl]> (obj_props o)))]> h1)
                (<[b := Sink lvl en [("_app", identity config argv pid)] (Some r)]>
                   (<[r := Sink lvl en [] None]> (sinks st)))
                (emitted st)).
Proof.
  intros Hsec e h1 lvl en r b.
  assert (Hlc : ∃ l o,
             (if config_has config "logger" then config !! "logger" = Some (VRef l) else l = e)
             ∧ (if config_has config "logger" then config_get config "logger" else VRef e)
                 = VRef l
             ∧ h1 !! l = Some o
             ∧ obj_mutability o = Mutable
             ∧ no_accessor o "level" = true
             ∧ no_accessor o "enabled" = true
             ∧ ∀ k, configured config (heap st) k
                    = default VUndefined (obj_props o !! k ≫= read_prop)).
  { destruct Hsec as [Hno|Hsec].
    - exists e, (Obj CPlain Mutable ∅). unfold configured. rewrite Hno.
      subst h1. by rewrite lookup_insert_eq.
    - destruct (logger_section_inv _ _ _ Hsec)
        as (l & o & Hlog & Hl & Hm & Ha & Hb & Hhas & Hget & Hcfg).
      exists l, o. rewrite Hhas, Hget. subst h1 e.
      rewrite lookup_insert_ne by by eapply fresh_loc_ne.
      by split_and!. }
  destruct Hlc as (l & o & Hcond & Hlc & Hl & Hm & Ha1 & Ha2 & Hcfg).
  exists l, o. split_and!; try done.
  unfold init, alloc. lazy beta iota zeta. fold e h1. rewrite Hlc.
  cbn [heap].
  rewrite (get_prop_live h1 l o "level" Hl Ha1). cbn [mbind outcome_bind].
  rewrite (assign_prop_mutable l o "level" _ (State h1 _ _) Hl Hm Ha1). cbn [mbind outcome_bind heap].
  set (o2 := Obj (obj_class_of o) Mutable (<["level" := _]> (obj_props o))).
  assert (Hl2 : <[l := o2]> h1 !! l = Some o2) by apply lookup_insert_eq.
  assert (Ha3 : no_accessor o2 "enabled" = true).
  { unfold no_accessor in *. subst o2. cbn. by rewrite lookup_insert_ne. }
  rewrite (get_prop_live _ l o2 "enabled" Hl2 Ha3). cbn [mbind outcome_bind].
  rewrite (assign_prop_mutable l o2 "enabled" _ (State (<[l := o2]> h1) _ _) Hl2 eq_refl Ha3).
  cbn [mbind outcome_bind heap sinks emitted].
  unfold pino, child. lazy beta iota zeta. cbn [heap sinks emitted].
  rewrite insert_insert_eq.
  rewrite !(option_value_live _ l _ _ (lookup_insert_eq _ _ _)).
  subst o2. cbn [obj_props obj_class_of].
  rewrite (lookup_insert_ne _ "level" "enabled") by done.
  rewrite (lookup_insert_ne _ "enabled" "level") by done.
  rewrite !lookup_insert_eq. cbn [mbind option_bind read_prop default].
  rewrite <- !Hcfg. fold lvl en r.
  cbn [default sink_level sink_enabled sink_bindings app].
  reflexivity.
Qed.

(** With a frozen section the writes are dropped: the module loads and
    the sink is constructed with the options as configured. *)
Lemma init_frozen config argv pid st :
  logger_section Frozen config (heap st) = true →
  let e := fresh (dom (heap st)) in
  let lvl := configured config (heap st) "level" in
  let en := configured config (heap st) "enabled" in
  let r := fresh (dom (sinks st)) in
  let b := fresh (dom (<[r := Sink lvl en [] None]> (sinks st))) in
  init config argv pid st =
    Ok (Module_ (config_get config "logger") r (configured_appName config) b,
        State (<[e := Obj CPlain Mutable ∅]> (heap st))
              (<[b := Sink lvl en [("_app", identity config argv pid)] (Some r)]>
                 (<[r := Sink lvl en [] None]> (sinks st)))
              (emitted st)).
Proof.
  intros Hsec e lvl en r b. subst lvl en.
  destruct (logger_section_inv _ _ _ Hsec)
    as (l & o & Hlog & Hl & Hm & Ha & Hb & Hhas & Hget & Hcfg).
  unfold init, alloc. lazy beta iota zeta. fold e. rewrite Hhas, !Hget. cbn [heap].
  assert (Hl1 : <[e := Obj CPlain Mutable ∅]> (heap st) !! l = Some o).
  { subst e. rewrite lookup_insert_ne; [done|]. by eapply fresh_loc_ne. }
  rewrite (get_prop_live _ l o "level" Hl1 Ha). cbn [mbind outcome_bind].
  rewrite (assign_prop_frozen l o "level" _ (State _ _ _) Hl1 Hm). cbn [mbind outcome_bind heap].
  rewrite (get_prop_live _ l o "enabled" Hl1 Hb). cbn [mbind outcome_bind].
  rewrite (assign_prop_frozen l o "enabled" _ (State _ _ _) Hl1 Hm). cbn [mbind outcome_bind].
  unfold pino, child. lazy beta iota zeta. cbn [heap sinks emitted].
  rewrite !(option_value_live _ l o _ Hl1), <- !Hcfg.
  fold r. rewrite lookup_insert_eq. cbn [default sink_level sink_enabled sink_bindings app].
  reflexivity.
Qed.

(** With a guarded section the first write throws. *)
Lemma init_guarded config argv pid st :
  logger_section Guarded config (heap st) = true →
  init config argv pid st = Throw "Error".
Proof.
  intros Hsec.
  destruct (logger_section_inv _ _ _ Hsec)
    as (l & o & Hlog & Hl & Hm & Ha & Hb & Hhas & Hget & Hcfg).
  unfold init, alloc. lazy beta iota zeta. rewrite Hhas, !Hget. cbn [heap].
  assert (Hl1 : <[fresh (dom (heap st)) := Obj CPlain Mutable ∅]> (heap st) !! l = Some o).
  { rewrite lookup_insert_ne; [done|]. by eapply fresh_loc_ne. }
  rewrite (get_prop_live _ l o "level" Hl1 Ha). cbn [mbind outcome_bind].
  by rewrite (assign_prop_guarded l o "level" _ (State _ _ _) Hl1 Hm).
Qed.

(** C8.  The code does not do what the claim says once the
    configuration has a [logger] section.  Lines 15 and 16 assign the
    resolved options to the object the configuration returned, which the
    configuration library hands out immutable.  At
    [{ logger: { enabled: 0 } }]: when the section rejects writes the
    module throws at line 15 and no sink is constructed; when it drops
    them the sink is constructed with [enabled: 0] and no level, not
    with [enabled = true] and level ["info"], and the section is as it
    was.  Only a section that takes the writes gives what the claim
    says. *)
Theorem init_enabled_0_not_resolved :
  init config_enabled_0 demo_argv demo_pid (state_enabled_0 Guarded) = Throw "Error" ∧
  root_sink (init config_enabled_0 demo_argv demo_pid (state_enabled_0 Guarded)) = None ∧
  root_sink (init config_enabled_0 demo_argv demo_pid (state_enabled_0 Frozen))
    = Some (Sink VUndefined (VNum (NumZ 0)) [] None) ∧
  root_sink (init config_enabled_0 demo_argv demo_pid (state_enabled_0 Mutable))
    = Some (Sink (VStr "info") (VBool true) [] None).
Proof. split_and!; reflexivity. Qed.

(** Without a [logger] section the claim's defaults hold. *)
Example init_no_logger_section :
  root_sink (init ∅ demo_argv demo_pid empty_state)
    = Some (Sink (VStr "info") (VBool true) [] None) ∧
  base_sink (init ∅ demo_argv demo_pid empty_state)
    = Some (Sink (VStr "info") (VBool true) [("_app", VStr "/srv/app.js")] (Some 1%positive)).
Proof. split; reflexivity. Qed.

(** C9, as stated, fails: with [appName] configured as the empty string
    the configuration has an [appName], yet the identity bound to the
    base logger is the invocation argument.  The choice is made with
    [||], on truthiness, not on presence. *)
Lemma identity_empty_appName_falls_through :
  config_has config_empty_appName "appName" = true ∧
  spec_identity config_empty_appName demo_argv demo_pid = VStr "" ∧
  sink_bindings <$> base_sink (init config_empty_appName demo_argv demo_pid empty_state)
    = Some [("_app", VStr "/srv/app.js")] ∧
  sink_bindings <$> base_sink (init config_empty_appName demo_argv demo_pid empty_state)
    ≠ Some [("_app", spec_identity config_empty_appName demo_argv demo_pid)].
Proof. split_and!; try reflexivity. discriminate. Qed.

Lemma base_sink_loaded config argv pid st :
  loaded (init config argv pid st) = true →
  ∃ lv en r,
    base_sink (init config argv pid st)
      = Some (Sink lv en [("_app", identity config argv pid)] (Some r)).
Proof.
  destruct (init config argv pid st) as [[m st']|] eqn:Hinit; [|done]. intros _.
  destruct (init_loaded_inv _ _ _ _ _ _ Hinit) as (lv & en & _ & _ & Hs & _).
  cbn [base_sink]. rewrite Hs, lookup_insert_eq. by eexists _, _, _.
Qed.

(** C9, amended.  Whenever the module loads, the identity bound under
    [_app] is the configured [appName] when it is truthy; otherwise the
    invocation argument when that is truthy (a non-empty string);
    otherwise the process identifier.  (The module does load when the
    configuration has no [logger] section.) *)
Theorem identity_precedence config argv pid st :
  loaded (init config argv pid st) = true →
  ∃ idv,
    sink_bindings <$> base_sink (init config argv pid st) = Some [("_app", idv)] ∧
    (truthy (configured_appName config) = true → idv = configured_appName config) ∧
    (truthy (configured_appName config) = false →
       truthy (argv_1 argv) = true → idv = argv_1 argv) ∧
    (truthy (configured_appName config) = false →
       truthy (argv_1 argv) = false → idv = VNum (NumZ pid)).
Proof.
  intros Hload.
  destruct (base_sink_loaded _ _ _ _ Hload) as (lv & en & r & ->).
  eexists. split; [reflexivity|].
  unfold identity, js_or. split_and!.
  - intros Ha. rewrite Ha. by rewrite Ha.
  - intros Ha Hv. rewrite Ha. by rewrite Hv.
  - intros Ha Hv. rewrite Ha. by rewrite Hv.
Qed.

Lemma identity_precedence_witness :
  ∃ idv,
    sink_bindings <$> base_sink (init config_billing demo_argv demo_pid empty_state)
      = Some [("_app", idv)] ∧
    (truthy (configured_appName config_billing) = true →
       idv = configured_appName config_billing) ∧
    (truthy (configured_appName config_billing) = false →
       truthy (argv_1 demo_argv) = true → idv = argv_1 demo_argv) ∧
    (truthy (configured_appName config_billing) = false →
       truthy (argv_1 demo_argv) = false → idv = VNum (NumZ demo_pid)).
Proof.
  exact (identity_precedence config_billing demo_argv demo_pid empty_state eq_refl).
Defined.

(** Where every source that is present is truthy, the code and the
    specification's wording agree. *)
Lemma identity_agrees_when_truthy config argv pid st :
  loaded (init config argv pid st) = true →
  (config_has config "appName" = true → truthy (config_get config "appName") = true) →
  (∀ a, argv !! 1%nat = Some a → a ≠ "") →
  sink_bindings <$> base_sink (init config argv pid st)
    = Some [("_app", spec_identity config argv pid)].
Proof.
  intros Hload Happ Harg.
  destruct (base_sink_loaded _ _ _ _ Hload) as (lv & en & r & ->).
  cbn. do 3 f_equal.
  unfold identity, spec_identity, configured_appName, argv_1, js_or.
  destruct (config_has config "appName").
  - rewrite (Happ eq_refl). by rewrite (Happ eq_refl).
  - cbn. destruct (argv !! 1%nat) as [a|] eqn:Ha; [|done].
    specialize (Harg a eq_refl). cbn.
    by destruct (String.eqb_spec a "").
Qed.

(** The three toggles of presence, each source a non-empty string. *)
Example identity_toggle_appName :
  sink_bindings <$> base_sink (init config_billing demo_argv demo_pid empty_state)
    = Some [("_app", VStr "billing")].
Proof. reflexivity. Qed.

Example identity_toggle_argv :
  sink_bindings <$> base_sink (init ∅ demo_argv demo_pid empty_state)
    = Some [("_app", VStr "/srv/app.js")].
Proof. reflexivity. Qed.

Example identity_toggle_pid :
  sink_bindings <$> base_sink (init ∅ ["node"] demo_pid empty_state)
    = Some [("_app", VNum (NumZ 4242))].
Proof. reflexivity. Qed.

(** ** The factories *)

(** C7. For a module name and a class name that are both given, the
    logger returned by [getContextLogger] wraps a sink that is not the
    base logger; that sink is a child of a module-level child of the
    base logger, and the fields bound to it are those of the base
    logger, the identity among them, followed by the module field and
    then the class field.  The base logger itself is not changed. *)
Theorem getContextLogger_binds_in_order base bs pre idv m c st :
  sinks st !! base = Some bs →
  sink_bindings bs = pre ++ [("_app", idv)] →
  m ≠ VUndefined →
  c ≠ VUndefined →
  let lg := (getContextLogger base m c st).1 in
  let st' := (getContextLogger base m c st).2 in
  pinoLogger lg ≠ base ∧
  sinks st' !! base = Some bs ∧
  ∃ ml ms cs,
    sinks st !! ml = None ∧
    sinks st' !! ml = Some ms ∧
    sink_parent ms = Some base ∧
    sink_bindings ms = sink_bindings bs ++ [("_mod", m)] ∧
    sinks st' !! pinoLogger lg = Some cs ∧
    sink_parent cs = Some ml ∧
    sink_bindings cs = sink_bindings bs ++ [("_mod", m); ("_cls", c)] ∧
    sink_bindings cs = pre ++ [("_app", idv); ("_mod", m); ("_cls", c)] ∧
    length (sink_bindings bs) < length (sink_bindings cs).
Proof.
  intros Hb Hpre Hm Hc.
  unfold getContextLogger, getLogger.
  rewrite (strict_eq_undefined _ Hm), (strict_eq_undefined _ Hc).
  unfold child. cbn [negb]. lazy beta iota zeta. cbn [fst snd pinoLogger sinks heap emitted].
  set (s1 := fresh (dom (sinks st))).
  rewrite Hb. cbn [default].
  set (ms := Sink _ _ (_ ++ [("_mod", m)]) _).
  set (sk1 := <[s1 := ms]> (sinks st)).
  set (s2 := fresh (dom sk1)).
  assert (H1 : s1 ≠ base) by (by eapply fresh_loc_ne).
  assert (Hms : sk1 !! s1 = Some ms) by apply lookup_insert_eq.
  assert (H21 : s2 ≠ s1) by (by eapply fresh_loc_ne).
  assert (Hb1 : sk1 !! base = Some bs) by (subst sk1; by rewrite lookup_insert_ne).
  assert (H2 : s2 ≠ base) by (by eapply fresh_loc_ne).
  rewrite Hms. cbn [default].
  split_and!; [done|by rewrite lookup_insert_ne|].
  eexists s1, ms, _. rewrite lookup_insert_eq.
  split_and!; try reflexivity.
  - apply fresh_loc_None.
  - by rewrite lookup_insert_ne.
  - cbn. by rewrite <- app_assoc.
  - cbn. by rewrite Hpre, <- !app_assoc.
  - cbn. rewrite !length_app. cbn. lia.
Qed.

Lemma getContextLogger_binds_in_order_witness :
  pinoLogger (getContextLogger 2%positive (VStr "orders") (VStr "OrderService")
                loaded_state).1 ≠ 2%positive.
Proof.
  exact (proj1 (getContextLogger_binds_in_order 2%positive
           (Sink (VStr "info") (VBool true) [("_app", VStr "billing")] (Some 1%positive))
           [] (VStr "billing") (VStr "orders") (VStr "OrderService") loaded_state
           eq_refl eq_refl ltac:(discriminate) ltac:(discriminate))).
Defined.

(** The logger obtained after loading the module under
    [{ appName: "billing" }]. *)
Example getContextLogger_orders :
  let '(lg, st') :=
    getContextLogger 2%positive (VStr "orders") (VStr "OrderService") loaded_state in
  sink_bindings <$> sinks st' !! pinoLogger lg
    = Some [("_app", VStr "billing"); ("_mod", VStr "orders");
            ("_cls", VStr "OrderService")].
Proof. reflexivity. Qed.

(** With neither name given the base logger itself is wrapped. *)
Example getContextLogger_no_names base st :
  getContextLogger base VUndefined VUndefined st = ({| pinoLogger := base |}, st).
Proof. reflexivity. Qed.

(** ** More on [getLogger] *)

Lemma strict_eq_undefined_true v : strict_eq v VUndefined = true → v = VUndefined.
Proof.
  unfold strict_eq. destruct v as [| |b|[z|]| | | |]; try done.
  all: by intros ?%bool_decide_eq_true.
Qed.

Lemma child_live s bs fields st :
  sinks st !! s = Some bs →
  child s fields st =
    (fresh (dom (sinks st)),
     State (heap st)
           (<[fresh (dom (sinks st)) :=
                Sink (sink_level bs) (sink_enabled bs) (sink_bindings bs ++ fields) (Some s)]>
              (sinks st))
           (emitted st)).
Proof. intros Hs. unfold child. by rewrite Hs. Qed.

(** Everything [getLogger] does, for a live base logger. *)
Lemma getLogger_live base bs m c st :
  sinks st !! base = Some bs →
  ∃ rs,
    sinks (getLogger base m c st).2 !! (getLogger base m c st).1 = Some rs ∧
    sink_level rs = sink_level bs ∧
    sink_enabled rs = sink_enabled bs ∧
    sink_bindings rs = sink_bindings bs ++ name_fields m c ∧
    sinks st ⊆ sinks (getLogger base m c st).2 ∧
    heap (getLogger base m c st).2 = heap st ∧
    emitted (getLogger base m c st).2 = emitted st ∧
    (name_fields m c ≠ [] → sinks st !! (getLogger base m c st).1 = None).
Proof.
  intros Hb. unfold getLogger, name_fields.
  destruct (strict_eq m VUndefined), (strict_eq c VUndefined); cbn [negb].
  - exists bs. cbn. rewrite List.app_nil_r. split_and!; done.
  - rewrite (child_live _ _ _ _ Hb). cbn. rewrite lookup_insert_eq.
    eexists. split_and!; try done.
    + apply insert_subseteq, fresh_loc_None.
    + intros _. apply fresh_loc_None.
  - rewrite (child_live _ _ _ _ Hb). cbn. rewrite lookup_insert_eq.
    eexists. split_and!; try done.
    + apply insert_subseteq, fresh_loc_None.
    + intros _. apply fresh_loc_None.
  - rewrite (child_live _ _ _ _ Hb). lazy beta iota zeta.
    erewrite child_live by apply lookup_insert_eq.
    cbn. rewrite lookup_insert_eq.
    eexists. split_and!; try done.
    + cbn. by rewrite <- app_assoc.
    + etrans; [|apply insert_subseteq, fresh_loc_None].
      apply insert_subseteq, fresh_loc_None.
    + intros _.
      set (sk1 := <[_ := _]> (sinks st)).
      destruct (sinks st !! fresh (dom sk1)) as [x|] eqn:Hx; [|done].
      assert (sk1 !! fresh (dom sk1) = Some x) as Hin.
      { eapply lookup_weaken; [exact Hx|]. apply insert_subseteq, fresh_loc_None. }
      by rewrite fresh_loc_None in Hin.
Qed.

Lemma name_fields_nil m c :
  name_fields m c = [] ↔ m = VUndefined ∧ c = VUndefined.
Proof.
  unfold name_fields. split.
  - destruct (strict_eq m VUndefined) eqn:Hm, (strict_eq c VUndefined) eqn:Hc; try done.
    intros _. by split; apply strict_eq_undefined_true.
  - by intros [-> ->].
Qed.

(** X1. The sink [getLogger] returns is the base logger itself exactly
    when neither name is given; as soon as one name is given (the empty
    string and [null] count as given) it is another sink. *)
Theorem getLogger_base_iff base bs m c st :
  sinks st !! base = Some bs →
  (getLogger base m c st).1 = base ↔ m = VUndefined ∧ c = VUndefined.
Proof.
  intros Hb. split.
  - intros Heq. apply name_fields_nil.
    destruct (getLogger_live base bs m c st Hb) as (rs & _ & _ & _ & _ & _ & _ & _ & Hnew).
    destruct (decide (name_fields m c = [])) as [|Hne]; [done|].
    specialize (Hnew Hne). rewrite Heq, Hb in Hnew. discriminate.
  - by intros [-> ->].
Qed.

Lemma getLogger_base_iff_witness :
  (getLogger 2%positive (VStr "") VUndefined loaded_state).1 = 2%positive
  ↔ VStr "" = VUndefined ∧ VUndefined = VUndefined.
Proof.
  exact (getLogger_base_iff 2%positive loaded_base (VStr "") VUndefined
           loaded_state eq_refl).
Defined.

(** X2. Whatever names are given, the sink returned for a live base
    logger has the base logger's level and enabled flag, and its bound
    fields are the base logger's followed by [_mod] when a module name is
    given and then [_cls] when a class name is given: fields are only
    ever added, after those already bound. *)
Theorem getLogger_accumulates base bs m c st :
  sinks st !! base = Some bs →
  ∃ rs,
    sinks (getLogger base m c st).2 !! (getLogger base m c st).1 = Some rs ∧
    sink_level rs = sink_level bs ∧
    sink_enabled rs = sink_enabled bs ∧
    sink_bindings rs =
      sink_bindings bs
        ++ (if strict_eq m VUndefined then [] else [("_mod", m)])
        ++ (if strict_eq c VUndefined then [] else [("_cls", c)]) ∧
    sink_bindings bs `prefix_of` sink_bindings rs.
Proof.
  intros Hb.
  destruct (getLogger_live base bs m c st Hb) as (rs & Hrs & Hl & He & Hbind & _).
  exists rs. split_and!; try done.
  rewrite Hbind. by eexists.
Qed.

Lemma getLogger_accumulates_witness :
  ∃ rs,
    sinks (getLogger 2%positive VUndefined (VStr "OrderService") loaded_state).2
      !! (getLogger 2%positive VUndefined (VStr "OrderService") loaded_state).1 = Some rs ∧
    sink_level rs = VStr "info" ∧
    sink_enabled rs = VBool true ∧
    sink_bindings rs = [("_app", VStr "billing"); ("_cls", VStr "OrderService")] ∧
    [("_app", VStr "billing")] `prefix_of` sink_bindings rs.
Proof.
  exact (getLogger_accumulates 2%positive loaded_base VUndefined (VStr "OrderService")
           loaded_state eq_refl).
Defined.

(** X3. With a module name only, [getLogger] returns a new sink, a
    direct child of the base logger, binding [_mod] after the base
    logger's fields. *)
Theorem getLogger_module_only base bs m st :
  sinks st !! base = Some bs →
  m ≠ VUndefined →
  sinks st !! (getLogger base m VUndefined st).1 = None ∧
  sinks (getLogger base m VUndefined st).2 !! (getLogger base m VUndefined st).1
    = Some (Sink (sink_level bs) (sink_enabled bs)
                 (sink_bindings bs ++ [("_mod", m)]) (Some base)).
Proof.
  intros Hb Hm. unfold getLogger.
  rewrite (strict_eq_undefined _ Hm), (child_live _ _ _ _ Hb). cbn.
  split; [apply fresh_loc_None|apply lookup_insert_eq].
Qed.

Lemma getLogger_module_only_witness :
  sinks loaded_state !! (getLogger 2%positive VNull VUndefined loaded_state).1 = None ∧
  sinks (getLogger 2%positive VNull VUndefined loaded_state).2
    !! (getLogger 2%positive VNull VUndefined loaded_state).1
    = Some (Sink (VStr "info") (VBool true)
                 [("_app", VStr "billing"); ("_mod", VNull)] (Some 2%positive)).
Proof.
  exact (getLogger_module_only 2%positive loaded_base VNull loaded_state
           eq_refl ltac:(discriminate)).
Defined.

(** X4. With a class name only, the new sink is derived from the base
    logger directly, with no module-level sink in between, and binds
    [_cls] after the base logger's fields. *)
Theorem getLogger_class_only base bs c st :
  sinks st !! base = Some bs →
  c ≠ VUndefined →
  sinks st !! (getLogger base VUndefined c st).1 = None ∧
  sinks (getLogger base VUndefined c st).2 !! (getLogger base VUndefined c st).1
    = Some (Sink (sink_level bs) (sink_enabled bs)
                 (sink_bindings bs ++ [("_cls", c)]) (Some base)) ∧
  sinks (getLogger base VUndefined c st).2
    = <[(getLogger base VUndefined c st).1 :=
          Sink (sink_level bs) (sink_enabled bs)
               (sink_bindings bs ++ [("_cls", c)]) (Some base)]> (sinks st).
Proof.
  intros Hb Hc. unfold getLogger.
  rewrite (strict_eq_undefined _ Hc). cbn [strict_eq bool_decide negb].
  rewrite bool_decide_eq_true_2 by done. cbn [negb].
  rewrite (child_live _ _ _ _ Hb). cbn.
  split_and!; [apply fresh_loc_None|apply lookup_insert_eq|done].
Qed.

Lemma getLogger_class_only_witness :
  sinks loaded_state !! (getLogger 2%positive VUndefined (VStr "") loaded_state).1 = None ∧
  sinks (getLogger 2%positive VUndefined (VStr "") loaded_state).2
    !! (getLogger 2%positive VUndefined (VStr "") loaded_state).1
    = Some (Sink (VStr "info") (VBool true)
                 [("_app", VStr "billing"); ("_cls", VStr "")] (Some 2%positive)).
Proof.
  pose proof (getLogger_class_only 2%positive loaded_base (VStr "") loaded_state
                eq_refl ltac:(discriminate)) as (H1 & H2 & _).
  exact (conj H1 H2).
Defined.

(** X5. [getLogger] logs nothing and touches no object; every sink that
    existed before the call, the base logger included, is still there
    and unchanged after it. *)
Theorem getLogger_frame base m c st :
  heap (getLogger base m c st).2 = heap st ∧
  emitted (getLogger base m c st).2 = emitted st ∧
  sinks st ⊆ sinks (getLogger base m c st).2.
Proof.
  unfold getLogger, child.
  destruct (strict_eq m VUndefined), (strict_eq c VUndefined); cbn.
  all: split_and!; try done.
  1,2: apply insert_subseteq, fresh_loc_None.
  etrans; apply insert_subseteq, fresh_loc_None.
Qed.

(** X6. No caching: two calls of [getLogger] with the same names, one
    after the other, return two different sinks, both different from the
    base logger, with the same level, enabled flag and bound fields. *)
Theorem getLogger_twice_distinct base bs m c st :
  sinks st !! base = Some bs →
  m ≠ VUndefined ∨ c ≠ VUndefined →
  let r1 := getLogger base m c st in
  let r2 := getLogger base m c r1.2 in
  r1.1 ≠ r2.1 ∧ r1.1 ≠ base ∧ r2.1 ≠ base ∧
  ∃ s1 s2,
    sinks r2.2 !! r1.1 = Some s1 ∧
    sinks r2.2 !! r2.1 = Some s2 ∧
    sink_level s1 = sink_level s2 ∧
    sink_enabled s1 = sink_enabled s2 ∧
    sink_bindings s1 = sink_bindings s2.
Proof.
  intros Hb Hname r1 r2.
  assert (Hne : name_fields m c ≠ []).
  { rewrite name_fields_nil. intros [-> ->]. by destruct Hname. }
  destruct (getLogger_live base bs m c st Hb)
    as (s1 & Hs1 & Hl1 & He1 & Hb1 & Hsub1 & _ & _ & Hnew1).
  fold r1 in Hs1, Hsub1, Hnew1.
  assert (Hb' : sinks r1.2 !! base = Some bs) by (by eapply lookup_weaken).
  destruct (getLogger_live base bs m c r1.2 Hb')
    as (s2 & Hs2 & Hl2 & He2 & Hb2 & Hsub2 & _ & _ & Hnew2).
  fold r2 in Hs2, Hsub2, Hnew2.
  specialize (Hnew1 Hne). specialize (Hnew2 Hne).
  split_and!.
  - intros Heq. rewrite <- Heq, Hs1 in Hnew2. discriminate.
  - intros Heq. rewrite Heq, Hb in Hnew1. discriminate.
  - intros Heq. rewrite Heq, Hb' in Hnew2. discriminate.
  - exists s1, s2. split_and!; [by eapply lookup_weaken|done|congruence..].
Qed.

Lemma getLogger_twice_distinct_witness :
  (getLogger 2%positive (VStr "orders") (VStr "OrderService") loaded_state).1
  ≠ (getLogger 2%positive (VStr "orders") (VStr "OrderService")
       (getLogger 2%positive (VStr "orders") (VStr "OrderService") loaded_state).2).1.
Proof.
  assert (Hb : sinks loaded_state !! 2%positive = Some loaded_base)
    by (vm_compute; reflexivity).
  assert (Hn : VStr "orders" ≠ VUndefined ∨ VStr "OrderService" ≠ VUndefined)
    by (left; discriminate).
  pose proof (getLogger_twice_distinct 2%positive loaded_base (VStr "orders")
                (VStr "OrderService") loaded_state Hb Hn) as H.
  cbv zeta in H. exact (proj1 H).
Defined.

(** ** More on the methods of [ContextLogger] *)

(** X7. Plain severity calls made one after the other on a logger
    reach the wrapped sink one record per call, in the order of the
    calls, each at the level of the method called and with its
    arguments as given (an empty argument list included); no object and
    no sink is changed. *)
Theorem invoke_all_journal this calls st :
  emitted (invoke_all this calls st)
    = emitted st ++ ((λ c, Rec (pinoLogger this) c.1 c.2) <$> calls) ∧
  heap (invoke_all this calls st) = heap st ∧
  sinks (invoke_all this calls st) = sinks st.
Proof.
  unfold invoke_all. revert st.
  induction calls as [|[lv args] calls IH]; intros st.
  - cbn. by rewrite List.app_nil_r.
  - cbn [foldl fst snd]. destruct (IH (invoke lv this args st)) as (He & Hh & Hs).
    rewrite He, Hh, Hs. destruct lv; cbn; by rewrite <- app_assoc.
Qed.



(** X10. [traceF] is [debugF] at another level: on the same arguments
    and state both return or both throw, with the same exception; they
    make the same change to the store and to the sinks; and the records
    they add are the same but for their level, debug for [debugF] and
    trace for [traceF]. *)
Theorem debugF_traceF_agree this f args st :
  thrown (debugF this f args st) = thrown (traceF this f args st) ∧
  heap (after (debugF this f args st)) = heap (after (traceF this f args st)) ∧
  sinks (after (debugF this f args st)) = sinks (after (traceF this f args st)) ∧
  ∃ new,
    (length new ≤ 1)%nat ∧
    (thrown (debugF this f args st) = None → args ≠ [] → length new = 1) ∧
    emitted (after (debugF this f args st)) = emitted st ++ (with_level Debug <$> new) ∧
    emitted (after (traceF this f args st)) = emitted st ++ (with_level Trace <$> new).
Proof.
  rewrite debugF_tagged, traceF_tagged.
  destruct args as [|first rest].
  { split_and!; try done. exists []. cbn. rewrite List.app_nil_r.
    split_and!; auto. by intros _ []. }
  destruct (tagged_cases this f first rest st)
    as [H | [H | [(vs & _ & H) | (_ & _ & _ & _ & H)]]]; rewrite !H; cbn.
  - split_and!; try done.
    exists [Rec (pinoLogger this) Debug (first :: rest)]. split_and!; auto.
  - split_and!; try done.
    exists [Rec (pinoLogger this) Debug (VRef (fresh (dom (heap st))) :: first :: rest)].
    split_and!; auto.
  - split_and!; try done.
    exists [Rec (pinoLogger this) Debug (VRef (fresh (dom (heap st))) :: rest)].
    split_and!; auto.
  - split_and!; try done. exists []. cbn. rewrite List.app_nil_r. split_and!; auto.
    intros; discriminate.
Qed.



(** X12. Two function-scoped calls in a row: both return, the two
    records follow the earlier ones in the order of the calls, each with
    a context object of its own, and the context object of the first
    record still holds the first function name after the second call. *)
Theorem debugF_then_traceF this f1 f2 s1 s2 rest1 rest2 st :
  let st1 := after (debugF this f1 (VStr s1 :: rest1) st) in
  let st2 := after (traceF this f2 (VStr s2 :: rest2) st1) in
  let l1 := fresh (dom (heap st)) in
  let l2 := fresh (dom (heap st1)) in
  thrown (debugF this f1 (VStr s1 :: rest1) st) = None ∧
  thrown (traceF this f2 (VStr s2 :: rest2) st1) = None ∧
  l1 ≠ l2 ∧
  emitted st2 = emitted st
    ++ [Rec (pinoLogger this) Debug (VRef l1 :: VStr s1 :: rest1);
        Rec (pinoLogger this) Trace (VRef l2 :: VStr s2 :: rest2)] ∧
  heap st2 !! l1 = Some (Obj CPlain Mutable (data {["_fun" := f1]})) ∧
  heap st2 !! l2 = Some (Obj CPlain Mutable (data {["_fun" := f2]})).
Proof.
  intros st1 st2 l1 l2. subst st2 l2 st1 l1.
  rewrite debugF_tagged, traceF_tagged, !tagged_string. cbn.
  set (l1 := fresh (dom (heap st))).
  set (h1 := <[l1 := _]> (heap st)).
  assert (fresh (dom h1) ≠ l1) as Hne.
  { eapply fresh_loc_ne. apply lookup_insert_eq. }
  split_and!; try done.
  - by rewrite <- app_assoc.
  - rewrite lookup_insert_ne by done. apply lookup_insert_eq.
  - apply lookup_insert_eq.
Qed.

(** ** More on the loading of the module *)

(** X13. When the configuration has no [logger] section, or has one
    that is an object accepting the writes of lines 15 and 16, the sinks
    are constructed with the resolved options: the level is the
    configured [logger.level] when that value is truthy and ["info"]
    otherwise (an absent level, but also an empty string or [0]), and
    the enabled flag is [false] exactly when the configured value is the
    boolean [false], [true] otherwise. *)
Theorem init_level_resolution config argv pid st :
  config_has config "logger" = false ∨ logger_section Mutable config (heap st) = true →
  ∃ root base,
    root_sink (init config argv pid st) = Some root ∧
    base_sink (init config argv pid st) = Some base ∧
    sink_level base = sink_level root ∧
    sink_enabled base = sink_enabled root ∧
    (truthy (configured config (heap st) "level") = true →
       sink_level root = configured config (heap st) "level") ∧
    (truthy (configured config (heap st) "level") = false →
       sink_level root = VStr "info") ∧
    (sink_enabled root = VBool false ↔
       configured config (heap st) "enabled" = VBool false) ∧
    (sink_enabled root = VBool true ↔
       configured config (heap st) "enabled" ≠ VBool false).
Proof.
  intros Hsec.
  destruct (init_resolves config argv pid st Hsec) as (l & o & _ & _ & _ & ->).
  cbn [root_sink base_sink logger baseLogger sinks].
  destruct (two_fresh_sinks (sinks st)
              (Sink (js_or (configured config (heap st) "level") (VStr "info"))
                    (VBool (negb (strict_eq (configured config (heap st) "enabled")
                                            (VBool false)))) [] None))
    as (_ & _ & Hne).
  rewrite lookup_insert_ne, !lookup_insert_eq by done.
  eexists _, _. split_and!; try reflexivity; cbn [sink_level sink_enabled]; unfold js_or.
  - by intros ->.
  - by intros ->.
  - rewrite <- (strict_eq_false_iff (configured config (heap st) "enabled")).
    destruct (strict_eq _ (VBool false)); cbn; naive_solver.
  - rewrite <- (strict_eq_false_iff (configured config (heap st) "enabled")).
    destruct (strict_eq _ (VBool false)); cbn; naive_solver.
Qed.

Lemma init_level_resolution_witness :
  ∃ root base,
    root_sink (init config_enabled_0 demo_argv demo_pid (state_enabled_0 Mutable)) = Some root ∧
    base_sink (init config_enabled_0 demo_argv demo_pid (state_enabled_0 Mutable)) = Some base ∧
    sink_level base = sink_level root ∧
    sink_enabled base = sink_enabled root ∧
    (truthy (configured config_enabled_0 (heap (state_enabled_0 Mutable)) "level") = true →
       sink_level root = configured config_enabled_0 (heap (state_enabled_0 Mutable)) "level") ∧
    (truthy (configured config_enabled_0 (heap (state_enabled_0 Mutable)) "level") = false →
       sink_level root = VStr "info") ∧
    (sink_enabled root = VBool false ↔
       configured config_enabled_0 (heap (state_enabled_0 Mutable)) "enabled" = VBool false) ∧
    (sink_enabled root = VBool true ↔
       configured config_enabled_0 (heap (state_enabled_0 Mutable)) "enabled" ≠ VBool false).
Proof.
  assert (H : config_has config_enabled_0 "logger" = false
              ∨ logger_section Mutable config_enabled_0 (heap (state_enabled_0 Mutable)) = true)
    by (right; reflexivity).
  exact (init_level_resolution config_enabled_0 demo_argv demo_pid
           (state_enabled_0 Mutable) H).
Defined.

(** X14. Whenever the module loads (as it does without a [logger]
    section), loading emits no record and adds exactly two sinks to
    those that exist: the root sink, with no parent and no bound field,
    and the exported base logger, a child of the root sink binding
    [_app] only; no existing sink is changed. *)
Theorem init_adds_two_sinks config argv pid st m st' :
  init config argv pid st = Ok (m, st') →
  ∃ root base idv,
    emitted st' = emitted st ∧
    sinks st !! logger m = None ∧
    sinks st !! defaultLogger m = None ∧
    logger m ≠ defaultLogger m ∧
    sinks st' = <[defaultLogger m := base]> (<[logger m := root]> (sinks st)) ∧
    sinks st ⊆ sinks st' ∧
    sink_parent root = None ∧
    sink_bindings root = [] ∧
    sink_parent base = Some (logger m) ∧
    sink_bindings base = [("_app", idv)].
Proof.
  intros Hinit.
  destruct (init_loaded_inv _ _ _ _ _ _ Hinit) as (lv & en & Hr & Hb & Hs & He).
  destruct (two_fresh_sinks (sinks st) (Sink lv en [] None)) as (Hnr & Hnb & Hne).
  unfold defaultLogger. rewrite Hs, He, Hb, Hr.
  eexists _, _, _. split_and!; try done.
  etrans; [|apply insert_subseteq; by rewrite lookup_insert_ne].
  by apply insert_subseteq.
Qed.

Lemma init_adds_two_sinks_witness :
  ∃ root base idv,
    emitted loaded_state = emitted empty_state ∧
    sinks empty_state !! logger loaded_module = None ∧
    sinks empty_state !! defaultLogger loaded_module = None ∧
    logger loaded_module ≠ defaultLogger loaded_module ∧
    sinks loaded_state
      = <[defaultLogger loaded_module := base]>
          (<[logger loaded_module := root]> (sinks empty_state)) ∧
    sinks empty_state ⊆ sinks loaded_state ∧
    sink_parent root = None ∧
    sink_bindings root = [] ∧
    sink_parent base = Some (logger loaded_module) ∧
    sink_bindings base = [("_app", idv)].
Proof.
  exact (init_adds_two_sinks config_billing demo_argv demo_pid empty_state
           loaded_module loaded_state eq_refl).
Defined.

(** X15. A [logger] section configured as [null] counts as present for
    [config.has], and reading [level] from it throws: the module fails
    to load with a TypeError and no sink is constructed. *)
Theorem init_null_section_throws config argv pid st :
  config !! "logger" = Some VNull →
  init config argv pid st = Throw "TypeError" ∧
  root_sink (init config argv pid st) = None ∧
  base_sink (init config argv pid st) = None.
Proof.
  intros Hnull.
  assert (init config argv pid st = Throw "TypeError") as ->; [|done].
  unfold init, alloc, config_has, config_get. rewrite Hnull. reflexivity.
Qed.

Lemma init_null_section_throws_witness :
  init {[ "logger" := VNull ]} demo_argv demo_pid empty_state = Throw "TypeError".
Proof.
  exact (proj1 (init_null_section_throws {[ "logger" := VNull ]} demo_argv demo_pid
                  empty_state eq_refl)).
Defined.

(** X16. When the [logger] section is an object that accepts the
    writes, the top-level code resolves the options in place: after
    loading, the section object itself holds the resolved [level] and
    [enabled] next to its other properties, which are kept, and it is
    the options object of the module.  No other object that existed is
    changed. *)
Theorem init_writes_section config argv pid l o st :
  config !! "logger" = Some (VRef l) →
  heap st !! l = Some o →
  obj_mutability o = Mutable →
  no_accessor o "level" = true →
  no_accessor o "enabled" = true →
  ∃ m st',
    init config argv pid st = Ok (m, st') ∧
    loggerConfig m = VRef l ∧
    heap st' !! l = Some
      (Obj (obj_class_of o) Mutable
         (<["enabled" := PData (VBool (negb (strict_eq
                            (default VUndefined (obj_props o !! "enabled" ≫= read_prop))
                            (VBool false))))]>
            (<["level" := PData (js_or
                            (default VUndefined (obj_props o !! "level" ≫= read_prop))
                            (VStr "info"))]>
               (obj_props o)))) ∧
    (∀ k, k ≠ "level" → k ≠ "enabled" → own_props (heap st') (VRef l) !! k = obj_props o !! k) ∧
    (∀ j x, j ≠ l → heap st !! j = Some x → heap st' !! j = Some x).
Proof.
  intros Hsec Hl Hm Ha Hb.
  assert (Hok : logger_section Mutable config (heap st) = true).
  { unfold logger_section. rewrite Hsec, Hl, Ha, Hb. by rewrite bool_decide_eq_true_2. }
  assert (Hhas : config_has config "logger" = true).
  { unfold config_has. by rewrite Hsec. }
  destruct (init_resolves config argv pid st (or_intror Hok)) as (l' & o' & Hl' & Ho' & Hcfg & ->).
  rewrite Hhas, Hsec in Hl'. injection Hl' as <-.
  pose proof (fresh_loc_ne _ _ _ Hl) as Hne.
  rewrite lookup_insert_ne, Hl in Ho' by done. injection Ho' as <-.
  rewrite <- !Hcfg.
  eexists _, _. split; [reflexivity|]. cbn [loggerConfig heap own_props].
  rewrite lookup_insert_eq. split_and!; try done.
  - intros k Hk1 Hk2. cbn. by rewrite !lookup_insert_ne.
  - intros j x Hj Hx. rewrite !lookup_insert_ne; [done| |done].
    by eapply fresh_loc_ne.
Qed.

Lemma init_writes_section_witness :
  ∃ m st',
    init config_enabled_0 demo_argv demo_pid (state_enabled_0 Mutable) = Ok (m, st') ∧
    loggerConfig m = VRef 1%positive ∧
    heap st' !! 1%positive = Some
      (Obj CPlain Mutable
         (<["enabled" := PData (VBool true)]>
            (<["level" := PData (VStr "info")]> (data {[ "enabled" := VNum (NumZ 0) ]})))).
Proof.
  destruct (init_writes_section config_enabled_0 demo_argv demo_pid 1%positive
              (Obj CPlain Mutable (data {[ "enabled" := VNum (NumZ 0) ]}))
              (state_enabled_0 Mutable)
              eq_refl eq_refl eq_refl eq_refl eq_refl) as (m & st' & H1 & H2 & H3 & _).
  exists m, st'. split_and!; [exact H1|exact H2|exact H3].
Defined.

(** X17. Without a [logger] section, loading changes no object that
    existed: the options are a new object holding exactly
    [level: "info"] and [enabled: true]. *)
Theorem init_without_section_fresh_options config argv pid st :
  config_has config "logger" = false →
  ∃ m st',
    init config argv pid st = Ok (m, st') ∧
    loggerConfig m = VRef (fresh (dom (heap st))) ∧
    heap st !! fresh (dom (heap st)) = None ∧
    heap st' = <[fresh (dom (heap st)) :=
                   Obj CPlain Mutable
                     (data (<["enabled" := VBool true]> {[ "level" := VStr "info" ]}))]>
                 (heap st) ∧
    heap st ⊆ heap st'.
Proof.
  intros Hno.
  destruct (init_resolves config argv pid st (or_introl Hno)) as (l & o & Hl & Ho & _ & ->).
  rewrite Hno in Hl. subst l.
  rewrite lookup_insert_eq in Ho. injection Ho as <-.
  unfold configured. rewrite Hno. cbn [js_or truthy strict_eq negb obj_props obj_class_of].
  eexists _, _. split; [reflexivity|]. cbn [loggerConfig heap].
  rewrite insert_insert_eq.
  split_and!; try done.
  - apply fresh_loc_None.
  - apply insert_subseteq, fresh_loc_None.
Qed.

Lemma init_without_section_fresh_options_witness :
  ∃ m st',
    init config_billing demo_argv demo_pid empty_state = Ok (m, st') ∧
    loggerConfig m = VRef (fresh (dom (heap empty_state))) ∧
    heap empty_state !! fresh (dom (heap empty_state)) = None ∧
    heap st' = <[fresh (dom (heap empty_state)) :=
                   Obj CPlain Mutable
                     (data (<["enabled" := VBool true]> {[ "level" := VStr "info" ]}))]>
                 (heap empty_state) ∧
    heap empty_state ⊆ heap st'.
Proof.
  exact (init_without_section_fresh_options config_billing demo_argv demo_pid
           empty_state eq_refl).
Defined.

(** X18. Whenever the module loads, the identity bound to the base
    logger is not an empty or missing value: with a process identifier
    other than 0 it is truthy, whatever [appName] and the invocation
    argument are. *)
Theorem identity_always_truthy config argv pid st :
  loaded (init config argv pid st) = true →
  pid ≠ 0%Z →
  ∃ idv,
    sink_bindings <$> base_sink (init config argv pid st) = Some [("_app", idv)] ∧
    truthy idv = true.
Proof.
  intros Hload Hpid.
  destruct (base_sink_loaded _ _ _ _ Hload) as (lv & en & r & ->).
  eexists. split; [reflexivity|].
  unfold identity, js_or.
  destruct (truthy (configured_appName config)) eqn:Ha; [by rewrite Ha|].
  destruct (truthy (argv_1 argv)) eqn:Hv; [by rewrite Hv|].
  cbn. by destruct (Z.eqb_spec pid 0).
Qed.

Lemma identity_always_truthy_witness :
  ∃ idv,
    sink_bindings <$> base_sink (init config_empty_appName ["node"] demo_pid empty_state)
      = Some [("_app", idv)] ∧
    truthy idv = true.
Proof.
  exact (identity_always_truthy config_empty_appName ["node"] demo_pid empty_state
           eq_refl ltac:(discriminate)).
Defined.

(** X19. From loading to a record: once the module has loaded, a logger
    obtained for a module and a class name, on which [debugF] is called
    with a message, hands one debug record to a sink whose bound fields
    are the identity, the module and the class, in that order; the
    record's arguments are a new object holding [_fun], then the
    message, then the rest. *)
Theorem loaded_logger_debugF config argv pid st md st1 m c f s rest :
  init config argv pid st = Ok (md, st1) →
  m ≠ VUndefined →
  c ≠ VUndefined →
  let lg := (getContextLogger (defaultLogger md) m c st1).1 in
  let st2 := (getContextLogger (defaultLogger md) m c st1).2 in
  let r := debugF lg f (VStr s :: rest) st2 in
  ∃ snk l',
    thrown r = None ∧
    emitted (after r)
      = emitted st ++ [Rec (pinoLogger lg) Debug (VRef l' :: VStr s :: rest)] ∧
    heap (after r) !! l' = Some (Obj CPlain Mutable (data {["_fun" := f]})) ∧
    sinks (after r) !! pinoLogger lg = Some snk ∧
    sink_bindings snk = [("_app", identity config argv pid); ("_mod", m); ("_cls", c)].
Proof.
  intros Hinit Hm Hc.
  destruct (init_loaded_inv _ _ _ _ _ _ Hinit) as (lv & en & Hr & Hb & Hs & He).
  assert (Hbase : sinks st1 !! defaultLogger md
                  = Some (Sink lv en [("_app", identity config argv pid)] (Some (logger md)))).
  { unfold defaultLogger. rewrite Hs. apply lookup_insert_eq. }
  destruct (getLogger_live (defaultLogger md) _ m c st1 Hbase)
    as (rs & Hrs & _ & _ & Hbind & _ & _ & Hem & _).
  unfold getContextLogger.
  destruct (getLogger (defaultLogger md) m c st1) as [lgs st2] eqn:Hg.
  cbn [fst snd pinoLogger] in *.
  rewrite debugF_tagged, tagged_string. cbn [emitted heap sinks pinoLogger after thrown].
  exists rs, (fresh (dom (heap st2))). rewrite lookup_insert_eq, Hem, He.
  split_and!; try done.
  rewrite Hbind. unfold name_fields.
  by rewrite (strict_eq_undefined _ Hm), (strict_eq_undefined _ Hc).
Qed.

Lemma loaded_logger_debugF_witness :
  ∃ snk l',
    thrown (debugF (getContextLogger (defaultLogger loaded_module) (VStr "orders")
                      (VStr "OrderService") loaded_state).1
              (VStr "save") [VStr "saved"]
              (getContextLogger (defaultLogger loaded_module) (VStr "orders")
                 (VStr "OrderService") loaded_state).2) = None ∧
    emitted (after (debugF (getContextLogger (defaultLogger loaded_module) (VStr "orders")
                              (VStr "OrderService") loaded_state).1
                      (VStr "save") [VStr "saved"]
                      (getContextLogger (defaultLogger loaded_module) (VStr "orders")
                         (VStr "OrderService") loaded_state).2))
      = emitted empty_state
          ++ [Rec (pinoLogger (getContextLogger (defaultLogger loaded_module) (VStr "orders")
                                 (VStr "OrderService") loaded_state).1)
                  Debug [VRef l'; VStr "saved"]] ∧
    heap (after (debugF (getContextLogger (defaultLogger loaded_module) (VStr "orders")
                           (VStr "OrderService") loaded_state).1
                   (VStr "save") [VStr "saved"]
                   (getContextLogger (defaultLogger loaded_module) (VStr "orders")
                      (VStr "OrderService") loaded_state).2)) !! l'
      = Some (Obj CPlain Mutable (data {["_fun" := VStr "save"]})) ∧
    sinks (after (debugF (getContextLogger (defaultLogger loaded_module) (VStr "orders")
                            (VStr "OrderService") loaded_state).1
                    (VStr "save") [VStr "saved"]
                    (getContextLogger (defaultLogger loaded_module) (VStr "orders")
                       (VStr "OrderService") loaded_state).2))
      !! pinoLogger (getContextLogger (defaultLogger loaded_module) (VStr "orders")
                       (VStr "OrderService") loaded_state).1 = Some snk ∧
    sink_bindings snk
      = [("_app", identity config_billing demo_argv demo_pid);
         ("_mod", VStr "orders"); ("_cls", VStr "OrderService")].
Proof.
  assert (Hinit : init config_billing demo_argv demo_pid empty_state
                  = Ok (loaded_module, loaded_state)) by (vm_compute; reflexivity).
  assert (Hm : VStr "orders" ≠ VUndefined) by discriminate.
  assert (Hc : VStr "OrderService" ≠ VUndefined) by discriminate.
  pose proof (loaded_logger_debugF config_billing demo_argv demo_pid empty_state
                loaded_module loaded_state (VStr "orders") (VStr "OrderService")
                (VStr "save") "saved" [] Hinit Hm Hc) as H.
  cbv zeta in H. exact H.
Defined.

(** X20. When the [logger] section is an object that rejects writes, as
    the sections handed out by recent versions of the configuration
    library do, the assignment of line 15 throws: the module fails to
    load with an Error and no sink is constructed, whatever the section
    holds. *)
Theorem init_guarded_section_throws config argv pid st :
  logger_section Guarded config (heap st) = true →
  init config argv pid st = Throw "Error" ∧
  loaded (init config argv pid st) = false ∧
  root_sink (init config argv pid st) = None ∧
  base_sink (init config argv pid st) = None.
Proof. intros Hsec. by rewrite (init_guarded _ _ _ _ Hsec). Qed.

Lemma init_guarded_section_throws_witness :
  init config_enabled_0 demo_argv demo_pid (state_enabled_0 Guarded) = Throw "Error".
Proof.
  exact (proj1 (init_guarded_section_throws config_enabled_0 demo_argv demo_pid
                  (state_enabled_0 Guarded) eq_refl)).
Defined.

(** X21. When the [logger] section is an object that drops writes (a
    frozen object, in the non-strict code of the module), lines 15 and
    16 have no effect: the module loads, the section is left as it was
    and is the options object, and the sinks are constructed with the
    level and the enabled flag exactly as configured, [undefined]
    included, not with the resolved ones. *)
Theorem init_frozen_section_unresolved config argv pid st :
  logger_section Frozen config (heap st) = true →
  ∃ m st' root base,
    init config argv pid st = Ok (m, st') ∧
    loggerConfig m = config_get config "logger" ∧
    own_props (heap st') (loggerConfig m) = own_props (heap st) (loggerConfig m) ∧
    heap st ⊆ heap st' ∧
    sinks st' !! logger m = Some root ∧
    sinks st' !! defaultLogger m = Some base ∧
    sink_level root = configured config (heap st) "level" ∧
    sink_enabled root = configured config (heap st) "enabled" ∧
    sink_level base = sink_level root ∧
    sink_enabled base = sink_enabled root.
Proof.
  intros Hsec. rewrite (init_frozen _ _ _ _ Hsec).
  set (lvl := configured config (heap st) "level").
  set (en := configured config (heap st) "enabled").
  destruct (two_fresh_sinks (sinks st) (Sink lvl en [] None)) as (_ & _ & Hne).
  eexists _, _, _, _. split; [reflexivity|].
  cbn [loggerConfig logger defaultLogger baseLogger heap sinks].
  rewrite lookup_insert_ne, !lookup_insert_eq by done.
  split_and!; try done.
  - apply own_props_alloc.
  - apply insert_subseteq, fresh_loc_None.
Qed.

Lemma init_frozen_section_unresolved_witness :
  ∃ m st' root base,
    init config_enabled_0 demo_argv demo_pid (state_enabled_0 Frozen) = Ok (m, st') ∧
    loggerConfig m = config_get config_enabled_0 "logger" ∧
    own_props (heap st') (loggerConfig m)
      = own_props (heap (state_enabled_0 Frozen)) (loggerConfig m) ∧
    heap (state_enabled_0 Frozen) ⊆ heap st' ∧
    sinks st' !! logger m = Some root ∧
    sinks st' !! defaultLogger m = Some base ∧
    sink_level root = configured config_enabled_0 (heap (state_enabled_0 Frozen)) "level" ∧
    sink_enabled root = configured config_enabled_0 (heap (state_enabled_0 Frozen)) "enabled" ∧
    sink_level base = sink_level root ∧
    sink_enabled base = sink_enabled root.
Proof.
  exact (init_frozen_section_unresolved config_enabled_0 demo_argv demo_pid
           (state_enabled_0 Frozen) eq_refl).
Defined.
